(** * Adobe Client Data Layer: the Manager of [src/scripts/DataLayer.js]

    A shallow embedding of [DataLayer.Manager]: the delete-aware merge
    ([_customMerge]), the state update ([_updateState]), the overridden
    [push], the start-up scan ([_processItems]) and the item dispatcher
    ([_processItem]), followed by the properties proved about them.

    JavaScript values are a tree datatype; the mutable manager object is
    threaded explicitly through a small state-and-exception monad; what the
    program lets the outside world observe (console output, callback
    invocations) is accumulated in a trace. *)

From Stdlib Require Import List String Ascii ZArith Bool Lia.
Import ListNotations.
Open Scope string_scope.

#[local] Set Warnings "-register-all".
#[local] Set Warnings "-automation".
#[local] Unset Elimination Schemes.

(** ** JavaScript values *)

(** A callback as the data layer sees it: an identity, and whether a call of
    it returns or throws.  Callbacks are opaque to the manager, which only
    ever calls them; in this model a callback does not itself call back into
    the data layer. *)
Record fn := mkFn { fn_id : nat; fn_throws : bool }.

(** The values that travel through the data layer.  A plain object is the
    list of its own enumerable properties in enumeration order; an array is
    the list of its elements, a hole reading as [VUndef] as it does for every
    consumer in this program. Numbers are integral. *)
Inductive value : Type :=
| VUndef
| VNull
| VBool (b : bool)
| VNum (n : Z)
| VStr (s : string)
| VFun (f : fn)
| VArr (xs : list value)
| VObj (kvs : list (string * value)).

#[local] Set Elimination Schemes.

Definition obj : Type := list (string * value).

(** [typeof v === 'undefined' || v === null] *)
Definition isNil (v : value) : bool :=
  match v with VUndef | VNull => true | _ => false end.

(** JavaScript truthiness, as tested by [if (x)]. *)
Definition truthy (v : value) : bool :=
  match v with
  | VUndef | VNull => false
  | VBool b => b
  | VNum n => negb (n =? 0)%Z
  | VStr s => negb (s =? "")
  | VFun _ | VArr _ | VObj _ => true
  end.

(** [o[k]]: the value of own property [k], [undefined] when absent. *)
Fixpoint get (k : string) (o : obj) : value :=
  match o with
  | [] => VUndef
  | (k', v) :: rest => if k =? k' then v else get k rest
  end.

(** [k in o], for own properties. *)
Fixpoint has (k : string) (o : obj) : bool :=
  match o with
  | [] => false
  | (k', _) :: rest => (k =? k') || has k rest
  end.

(** [o[k] = v]: overwrites in place, or adds the property last. *)
Fixpoint set (k : string) (v : value) (o : obj) : obj :=
  match o with
  | [] => [(k, v)]
  | (k', v') :: rest =>
      if k =? k' then (k', v) :: rest else (k', v') :: set k v rest
  end.

(** ** The lodash functions the manager calls

    lodash is a dependency, not part of the repository; its functions are
    modelled here from their documented behaviour on the values above. *)
Module lodash.

(** [_.isObject]: arrays, functions and objects. *)
Definition isObject (v : value) : bool :=
  match v with VFun _ | VArr _ | VObj _ => true | _ => false end.

Definition isNull (v : value) : bool :=
  match v with VNull => true | _ => false end.

(** [_.reject(xs, predicate)]: the elements [predicate] is falsy for. *)
Definition reject (predicate : value -> bool) (xs : list value) : list value :=
  filter (fun x => negb (predicate x)) xs.

(** [_.assign(object, source)]: copies the own properties of [source]
    onto [object]; it deletes nothing. *)
Definition assign (object source : obj) : obj :=
  fold_left (fun o kv => set (fst kv) (snd kv) o) source object.

Section Clone.
Variable clone : value -> value.

(** The own properties of an object, each cloned. *)
Fixpoint cloneProps (kvs : obj) : obj :=
  match kvs with
  | [] => []
  | (k, x) :: rest => (k, clone x) :: cloneProps rest
  end.
End Clone.

(** [_.cloneDeep] below the top level: a function nested in a parent is
    kept by reference. *)
Fixpoint cloneDeepIn (v : value) : value :=
  match v with
  | VArr xs => VArr (map cloneDeepIn xs)
  | VObj kvs => VObj (cloneProps cloneDeepIn kvs)
  | _ => v
  end.


(** [_.cloneDeep] of a plain object, as the object it returns. *)
Definition cloneDeepObject (o : obj) : obj := cloneProps cloneDeepIn o.

(** *** [_.mergeWith(object, source, customizer)]

    [baseMerge] visits the keys of the source in order.  A source value
    that is not an object goes through the customizer and is assigned; an
    array or plain object is merged recursively into the destination value
    when that has the same shape, and into a fresh [[]] or [{}] when the
    destination is not an object. Arrays are merged index by index.

    Two shape conflicts have effects on the destination that the value
    type above cannot hold (named properties written onto an array; an
    array copied out of an array-like object with an own numeric
    [length]); the model answers [None] there and every result about a
    merge is stated for the inputs on which it answers [Some]. *)
Section BaseMerge.
(** The customizer; [VUndef] is what a function without [return]
    gives. *)
Variable customizer : value -> value -> value.
(** [baseMergeDeep] on one property: destination value, source value. *)
Variable mergeDeep : value -> value -> option value.

(** One property of the source: the value assigned to the same
    property of the destination. *)
Definition mergeProp (objValue srcValue : value) : option value :=
  if isObject srcValue then mergeDeep objValue srcValue
  else match customizer objValue srcValue with
       | VUndef => Some srcValue
       | newValue => Some newValue
       end.

(** [assignMergeValue(object, key, value)]. *)
Definition assignMergeValue (object : obj) (key : string) (v : value) : obj :=
  match v with
  | VUndef => if has key object then object else set key v object
  | _ => set key v object
  end.

(** [baseMerge] of a plain object into a plain object. *)
Fixpoint mergeProps (object source : obj) : option obj :=
  match source with
  | [] => Some object
  | (key, srcValue) :: rest =>
      match mergeProp (get key object) srcValue with
      | None => None
      | Some newValue => mergeProps (assignMergeValue object key newValue) rest
      end
  end.

(** [baseMerge] of an array into an array: index [i] of the source is
    merged into index [i] of the destination, which grows when the
    source is longer and keeps its tail when the source is shorter. *)
Fixpoint mergeElems (object source : list value) : option (list value) :=
  match source with
  | [] => Some object
  | srcValue :: rest =>
      match mergeProp (hd VUndef object) srcValue with
      | None => None
      | Some newValue =>
          match mergeElems (tl object) rest with
          | None => None
          | Some merged => Some (newValue :: merged)
          end
      end
  end.
End BaseMerge.

(** [isArrayLikeObject] on a plain object: an own [length] that is a valid
    array length. *)
Definition isArrayLikeObject (o : obj) : bool :=
  match get "length" o with
  | VNum n => (0 <=? n)%Z && (n <=? 9007199254740991)%Z
  | _ => false
  end.

(** [baseMergeDeep]: a value returned by the customizer is taken as it
    is; on [undefined] an array source is merged into the destination
    array (or a fresh [[]]), a plain-object source into the destination
    object (or a fresh [{}]), and any other object (a function) is
    assigned by reference. *)
Fixpoint baseMergeDeep (customizer : value -> value -> value)
         (objValue srcValue : value) {struct srcValue} : option value :=
  match customizer objValue srcValue with
  | VUndef =>
      match srcValue with
      | VArr source =>
          match objValue with
          | VArr object =>
              option_map VArr
                (mergeElems customizer (baseMergeDeep customizer) object source)
          | VObj o =>
              if isArrayLikeObject o then None
              else option_map VArr
                     (mergeElems customizer (baseMergeDeep customizer) [] source)
          | _ =>
              option_map VArr
                (mergeElems customizer (baseMergeDeep customizer) [] source)
          end
      | VObj source =>
          match objValue with
          | VObj object =>
              option_map VObj
                (mergeProps customizer (baseMergeDeep customizer) object source)
          | VArr _ => None
          | _ =>
              option_map VObj
                (mergeProps customizer (baseMergeDeep customizer) [] source)
          end
      | _ => Some srcValue
      end
  | newValue => Some newValue
  end.

(** [mergeWith(object, source, customizer)] on a plain-object
    destination.  A falsy source is skipped; a source without enumerable
    properties changes nothing; a non-empty string or array source would
    spread its indices over the destination and is outside the model. *)
Definition mergeWith (object : obj) (source : value)
           (customizer : value -> value -> value) : option obj :=
  match source with
  | VObj src => mergeProps customizer (baseMergeDeep customizer) object src
  | VStr (String _ _) => None
  | VArr (_ :: _) => None
  | _ => Some object
  end.

(** *** [_.cloneDeepWith] under the omitting customizer *)
Section Omitting.
Variable predicate : value -> bool.
Variable clone : value -> value.

(** [reject(value, predicate).map(item => cloneDeepWith(item, ...))] *)
Fixpoint omitElems (xs : list value) : list value :=
  match xs with
  | [] => []
  | x :: rest =>
      if predicate x then omitElems rest else clone x :: omitElems rest
  end.

(** The loop over [Object.keys(value)]. *)
Fixpoint omitProps (kvs : obj) : obj :=
  match kvs with
  | [] => []
  | (subKey, x) :: rest =>
      if predicate x then omitProps rest
      else (subKey, clone x) :: omitProps rest
  end.
End Omitting.

End lodash.

(** ** [Manager.prototype._customMerge] *)

(** [omittingCloneDeepCustomizer], composed with the [cloneDeepWith] that
    calls it: an array is rebuilt from the elements the predicate rejects,
    an object from the properties whose value the predicate rejects, each
    cloned in turn; any other object (a function is one, without enumerable
    keys) gives [{}]; on a non-object the customizer returns [undefined] and
    [cloneDeepWith] returns the value itself. *)
Fixpoint omittingCloneDeepCustomizer (predicate : value -> bool) (v : value)
  : value :=
  match v with
  | VArr xs =>
      VArr (lodash.omitElems predicate (omittingCloneDeepCustomizer predicate) xs)
  | VObj kvs =>
      VObj (lodash.omitProps predicate (omittingCloneDeepCustomizer predicate) kvs)
  | VFun _ => VObj []
  | _ => v
  end.

(** [omitDeep(value, predicate)] *)
Definition omitDeep (v : value) (predicate : value -> bool) : value :=
  omittingCloneDeepCustomizer predicate v.

(** The [customizer] handed to [mergeWith]: [null] for a source value that is
    [undefined] or [null], and no [return] otherwise. *)
Definition customizer (objValue srcValue : value) : value :=
  if isNil srcValue then VNull else VUndef.

(** [_customMerge(object, source)]: [mergeWith(object, source, customizer)],
    then [assign(object, omitDeep(object, isNull))].  The object is mutated
    in place; the result is its content afterwards.  ([omitDeep] of an
    object is an object: the last case is never taken.) *)
Definition _customMerge (object : obj) (source : value) : option obj :=
  match lodash.mergeWith object source customizer with
  | None => None
  | Some merged =>
      match omitDeep (VObj merged) lodash.isNull with
      | VObj clone => Some (lodash.assign merged clone)
      | _ => None
      end
  end.

(** ** Items, listeners and the listener manager

    [DataLayerItem], [DataLayerListener], [DataLayerListenerManagerFactory]
    and [DataLayerConstants] are required by [DataLayer.js] but are not
    among the sources; they are modelled from the specification. *)

(** The item types.  The first five are the keys of [typeProcessors];
    [INVALID] is the kind the specification gives to a payload of no
    recognised shape. *)
Inductive itemType : Type :=
| DATA | FCTN | EVENT | LISTENER_ON | LISTENER_OFF | INVALID.

Inductive listenerScope : Type := PAST | FUTURE | ALL.

(** Modelled from the spec: the [Command] of section 3 is missing from the
    sources ([DataLayerItem]); the fields are the ones [DataLayer.js]
    reads. *)
Record Item : Type := mkItem {
  config : value;
  type : itemType;
  valid : bool;
  data : value;
  eventName : option string;
  index : option nat
}.

Definition isPlainObject (v : value) : bool :=
  match v with VObj _ => true | _ => false end.

Definition isString (v : value) : bool :=
  match v with VStr _ => true | _ => false end.

Definition isFunction (v : value) : bool :=
  match v with VFun _ => true | _ => false end.

(** Modelled from the spec: the classifier of section 4.1 ([DataLayerItem]
    is missing).  A payload is an event, data, listener-on or listener-off
    shape by the discriminating key it carries; it must carry exactly one of
    the four shapes, and a shape whose required field is malformed is
    invalid; a callable is a function item; all else is invalid. *)
Definition classify (payload : value) : itemType :=
  match payload with
  | VFun _ => FCTN
  | VObj o =>
      let isEvent := has "event" o in
      let isData := isPlainObject (get "data" o) && negb (has "event" o) in
      let isOn := has "on" o in
      let isOff := has "off" o in
      match isEvent, isData, isOn, isOff with
      | true, false, false, false =>
          if isString (get "event" o) then EVENT else INVALID
      | false, true, false, false => DATA
      | false, false, true, false =>
          if isString (get "on" o) && isFunction (get "handler" o)
          then LISTENER_ON else INVALID
      | false, false, false, true =>
          if isString (get "off" o) then LISTENER_OFF else INVALID
      | _, _, _, _ => INVALID
      end
  | _ => INVALID
  end.

Definition stringOf (v : value) : option string :=
  match v with VStr s => Some s | _ => None end.

(** Modelled from the spec: [new DataLayer.Item(itemConfig, index)]
    ([DataLayerItem] is missing).  [data] is the mapping supplied under
    [data] for data and event items, [undefined] otherwise. *)
Definition new_Item (itemConfig : value) (idx : option nat) : Item :=
  let t := classify itemConfig in
  let o := match itemConfig with VObj o => o | _ => [] end in
  {| config := itemConfig;
     type := t;
     valid := match t with INVALID => false | _ => true end;
     data := match t with
             | DATA | EVENT =>
                 if isPlainObject (get "data" o) then get "data" o else VUndef
             | _ => VUndef
             end;
     eventName := match t with
                  | EVENT => stringOf (get "event" o)
                  | LISTENER_ON => stringOf (get "on" o)
                  | LISTENER_OFF => stringOf (get "off" o)
                  | _ => None
                  end;
     index := idx |}.

(** Modelled from the spec: the [Listener] of section 3
    ([DataLayerListener] is missing). *)
Record Listener : Type := mkListener {
  l_event : string;
  l_path : option string;
  l_scope : listenerScope;
  l_handler : option fn
}.

(** Modelled from the spec: [new DataLayer.Listener(item)]
    ([DataLayerListener] is missing): the scope defaults to [ALL], also
    for an unrecognised value. *)
Definition new_Listener (item : Item) : Listener :=
  let o := match config item with VObj o => o | _ => [] end in
  {| l_event := match eventName item with Some e => e | None => "" end;
     l_path := stringOf (get "path" o);
     l_scope := match get "scope" o with
                | VStr "past" => PAST
                | VStr "future" => FUTURE
                | _ => ALL
                end;
     l_handler := match get "handler" o with VFun h => Some h | _ => None end |}.

(** What the program lets its environment observe, in order. *)
Inductive event : Type :=
| ConsoleError (itemConfig : value)
    (** [console.error] of [_processItem], which prints [item.config] *)
| Call (f : fn) (this arg : list value)
    (** [item._config.call(dataLayer, dataLayer)]: the queue as it stands *)
| Handler (l : Listener) (item : Item)
    (** the handler of a listener invoked for an item *)
| HandlerError (l : Listener) (item : Item).
    (** the exception of that handler, caught and logged *)

Module constants.
(** Modelled from the spec: the names of the reserved events of section 6
    ([DataLayerConstants] is missing; the specification does not give the
    literals, and no result below depends on them). *)
Definition dataLayerEvent_CHANGE : string := "adobeDataLayer:change".
Definition dataLayerEvent_EVENT : string := "adobeDataLayer:event".
End constants.

Module ListenerManager.

Definition fn_eqb (f g : fn) : bool :=
  Nat.eqb (fn_id f) (fn_id g) && Bool.eqb (fn_throws f) (fn_throws g).

Definition option_eqb {A} (eqb : A -> A -> bool) (x y : option A) : bool :=
  match x, y with
  | Some a, Some b => eqb a b
  | None, None => true
  | _, _ => false
  end.

(** Modelled from the spec: the identity of a listener for
    de-duplication is the triple of event name, path and handler. *)
Definition sameListener (a b : Listener) : bool :=
  (l_event a =? l_event b)
  && option_eqb String.eqb (l_path a) (l_path b)
  && option_eqb fn_eqb (l_handler a) (l_handler b).

(** Modelled from the spec: [register(listener)] is a no-op returning
    [false] when an identical triple exists, else inserts and returns
    [true]. *)
Definition register (l : Listener) (registry : list Listener)
  : bool * list Listener :=
  if existsb (sameListener l) registry then (false, registry)
  else (true, (registry ++ [l])%list).

(** Modelled from the spec: [unregister(criteria)] removes the listeners
    of that event name, and of that handler when one is supplied. *)
Definition unregister (l : Listener) (registry : list Listener)
  : list Listener :=
  filter (fun r =>
            negb ((l_event r =? l_event l)
                  && match l_handler l with
                     | None => true
                     | Some _ => option_eqb fn_eqb (l_handler r) (l_handler l)
                     end))
         registry.

(** A dot-delimited path as its key segments. *)
Fixpoint segments (s cur : string) : list string :=
  match s with
  | EmptyString => [cur]
  | String c rest =>
      if Ascii.eqb c "." then cur :: segments rest ""
      else segments rest (cur ++ String c "")
  end.

(** Modelled from the spec: the data of a command touches a path when it
    holds a value at the path, below it, or at an ancestor of it. *)
Fixpoint touches (d : value) (path : list string) : bool :=
  match path with
  | [] => true
  | k :: rest =>
      match d with
      | VObj o => has k o && touches (get k o) rest
      | _ => true
      end
  end.

(** Modelled from the spec: [matching] of section 4.3 for one listener:
    the change event for a command that merged data, the command's own
    event name or the generic event notification for an event command,
    filtered by the path when the listener has one. *)
Definition matches (l : Listener) (item : Item) : bool :=
  let byName :=
    match type item with
    | DATA => l_event l =? constants.dataLayerEvent_CHANGE
    | EVENT =>
        option_eqb String.eqb (Some (l_event l)) (eventName item)
        || (l_event l =? constants.dataLayerEvent_EVENT)
        || ((l_event l =? constants.dataLayerEvent_CHANGE)
            && truthy (data item))
    | _ => false
    end in
  let byPath :=
    match l_path l with
    | None => true
    | Some p => truthy (data item) && touches (data item) (segments p "")
    end in
  byName && byPath.

(** Modelled from the spec: [triggerOne] of section 4.3
    ([triggerListener] in the code): the handler of a matching listener is
    invoked, and an exception it raises is caught here and logged. *)
Definition triggerListener (l : Listener) (item : Item) : list event :=
  if matches l item then
    match l_handler l with
    | Some h =>
        if fn_throws h then [Handler l item; HandlerError l item]
        else [Handler l item]
    | None => []
    end
  else [].

(** Modelled from the spec: [triggerListeners(item)] triggers every
    registered listener in turn. *)
Definition triggerListeners (registry : list Listener) (item : Item)
  : list event :=
  flat_map (fun l => triggerListener l item) registry.

End ListenerManager.

(** ** The manager object and its methods *)

(** The fields of [DataLayer.Manager]; [_listenerManager] is the registry
    the listener manager holds, and [observed] the trace of what the
    environment has seen so far. *)
Record Manager : Type := mkManager {
  _dataLayer : list value;
  _state : obj;
  _previousStateCopy : obj;
  _listenerManager : list Listener;
  observed : list event
}.

(** How a method call ends: it returns, an exception raised by a callback
    propagates out of it, or it reaches a point the model does not cover (a
    merge outside the modelled fragment of lodash). The manager is the
    mutated object as the call leaves it. *)
Inductive result (A : Type) : Type :=
| Normal (a : A) (m : Manager)
| Throw (f : fn) (m : Manager)
| Unmodelled.

Arguments Normal {A} a m.
Arguments Throw {A} f m.
Arguments Unmodelled {A}.

Definition M (A : Type) : Type := Manager -> result A.

Definition ret {A} (a : A) : M A := fun m => Normal a m.

Definition bind {A B} (c : M A) (k : A -> M B) : M B :=
  fun m =>
    match c m with
    | Normal a m' => k a m'
    | Throw f m' => Throw f m'
    | Unmodelled => Unmodelled
    end.

Notation "x <- c ;; k" := (bind c (fun x => k))
  (at level 61, c at next level, right associativity).
Notation "c ;; k" := (bind c (fun _ => k))
  (at level 61, right associativity).

Definition throw {A} (f : fn) : M A := fun m => Throw f m.

Definition unmodelled {A} : M A := fun _ => Unmodelled.

(** Appends to the trace. *)
Definition emit (es : list event) : M unit :=
  fun m =>
    Normal tt {| _dataLayer := _dataLayer m;
                 _state := _state m;
                 _previousStateCopy := _previousStateCopy m;
                 _listenerManager := _listenerManager m;
                 observed := (observed m ++ es)%list |}.

Definition set_dataLayer (q : list value) (m : Manager) : Manager :=
  {| _dataLayer := q;
     _state := _state m;
     _previousStateCopy := _previousStateCopy m;
     _listenerManager := _listenerManager m;
     observed := observed m |}.

Definition set_listenerManager (r : list Listener) (m : Manager) : Manager :=
  {| _dataLayer := _dataLayer m;
     _state := _state m;
     _previousStateCopy := _previousStateCopy m;
     _listenerManager := r;
     observed := observed m |}.

(** [_updateState(item)]: the copy of the state is taken first, then the
    state is merged in place. *)
Definition _updateState (item : Item) : M unit :=
  fun m =>
    let previousStateCopy := lodash.cloneDeepObject (_state m) in
    match _customMerge (_state m) (data item) with
    | None => Unmodelled
    | Some merged =>
        Normal tt {| _dataLayer := _dataLayer m;
                     _state := merged;
                     _previousStateCopy := previousStateCopy;
                     _listenerManager := _listenerManager m;
                     observed := observed m |}
    end.

(** [that._listenerManager.triggerListeners(item)] *)
Definition triggerListeners (item : Item) : M unit :=
  fun m => emit (ListenerManager.triggerListeners (_listenerManager m) item) m.

(** [that._listenerManager.triggerListener(listener, item)] *)
Definition triggerListener (listener : Listener) (item : Item) : M unit :=
  emit (ListenerManager.triggerListener listener item).

(** [that._listenerManager.register(listener)] *)
Definition register (listener : Listener) : M bool :=
  fun m =>
    let (registered, registry) :=
      ListenerManager.register listener (_listenerManager m) in
    Normal registered (set_listenerManager registry m).

(** [that._listenerManager.unregister(listener)] *)
Definition unregister (listener : Listener) : M unit :=
  fun m =>
    Normal tt (set_listenerManager
                 (ListenerManager.unregister listener (_listenerManager m)) m).

(** [_getBefore(item)]: the entries of the queue before the index of the
    item, each classified anew without an index.  An item without an index
    makes the comparison false and [slice(0, undefined)] the whole queue. *)
Definition _getBefore (item : Item) (m : Manager) : list Item :=
  let length := Z.of_nat (List.length (_dataLayer m)) in
  let beyond :=
    match index item with
    | Some i => (Z.of_nat i >? length - 1)%Z
    | None => false
    end in
  if negb ((length =? 0)%Z || beyond) then
    map (fun itemConfig => new_Item itemConfig None)
        (match index item with
         | Some i => firstn i (_dataLayer m)
         | None => _dataLayer m
         end)
  else [].

(** [for (const registeredItem of items) triggerListener(listener, ...)] *)
Fixpoint triggerEach (listener : Listener) (items : list Item) : M unit :=
  match items with
  | [] => ret tt
  | registeredItem :: rest =>
      triggerListener listener registeredItem ;; triggerEach listener rest
  end.

(** [_processItem(item)].  An invalid item is reported and dropped; a valid
    one goes to the processor of its type.  [typeProcessors] has no entry
    for a valid item without one of the five types, and [fctn] needs a
    callable config: neither arises for an item built by [new_Item]. *)
Definition _processItem (item : Item) : M unit :=
  if negb (valid item) then
    emit [ConsoleError (config item)]
  else
    match type item with
    | DATA =>
        _updateState item ;;
        triggerListeners item
    | FCTN =>
        match config item with
        | VFun f =>
            fun m =>
              (emit [Call f (_dataLayer m) (_dataLayer m)] ;;
               if fn_throws f then throw f else ret tt) m
        | _ => unmodelled
        end
    | EVENT =>
        (if truthy (data item) then _updateState item else ret tt) ;;
        triggerListeners item
    | LISTENER_ON =>
        let listener := new_Listener item in
        match l_scope listener with
        | PAST =>
            fun m => triggerEach listener (_getBefore item m) m
        | FUTURE =>
            _ <- register listener ;; ret tt
        | ALL =>
            registered <- register listener ;;
            if registered
            then fun m => triggerEach listener (_getBefore item m) m
            else ret tt
        end
    | LISTENER_OFF =>
        unregister (new_Listener item)
    | INVALID => unmodelled
    end.

(** The callback of [Object.keys(pushArguments).forEach] in [push], run
    over the arguments from left to right.  The result is
    [filteredArguments]: [None] is a deleted index. *)
Fixpoint push_forEach (pushArguments : list value) : M (list (option value)) :=
  match pushArguments with
  | [] => ret []
  | itemConfig :: rest =>
      let item := new_Item itemConfig None in
      let invalid := negb (valid item) in
      deleted <-
        match type item with
        | DATA | EVENT => _processItem item ;; ret invalid
        | FCTN => _processItem item ;; ret true
        | LISTENER_ON | LISTENER_OFF => ret true
        | INVALID => ret invalid
        end ;;
      filtered <- push_forEach rest ;;
      ret ((if deleted then None else Some itemConfig) :: filtered)
  end.

(** Reading an index of the arguments object: a deleted one is
    [undefined]. *)
Definition argument (slot : option value) : value :=
  match slot with Some v => v | None => VUndef end.

(** [Array.prototype.push.apply(this, filteredArguments)]: every index
    below [length] is read and appended; the new length is returned. *)
Definition Array_push_apply (filteredArguments : list (option value)) : M value :=
  fun m =>
    let pushed := (_dataLayer m ++ map argument filteredArguments)%list in
    Normal (VNum (Z.of_nat (List.length pushed))) (set_dataLayer pushed m).

(** [that._dataLayer.push = function(var_args) {...}] *)
Definition push (var_args : list value) : M value :=
  filteredArguments <- push_forEach var_args ;;
  if truthy (argument (hd None filteredArguments))
  then Array_push_apply filteredArguments
  else ret VUndef.

(** [that._dataLayer.addEventListener(type, listener, options)]: the
    arguments are any values; [options && options.scope] is [options]
    itself when that is falsy. *)
Definition addEventListener (type_ listener options : value) : M unit :=
  let field k :=
    if truthy options
    then match options with VObj o => get k o | _ => VUndef end
    else options in
  _processItem
    (new_Item (VObj [("on", type_); ("handler", listener);
                     ("scope", field "scope"); ("path", field "path")])
              None).

(** [that._dataLayer.removeEventListener(type, listener)] *)
Definition removeEventListener (type_ listener : value) : M unit :=
  _processItem
    (new_Item (VObj [("off", type_); ("handler", listener)]) None).


(** [dataLayer.splice(i, 1)] *)
Definition splice1 (i : nat) (q : list value) : list value :=
  (firstn i q ++ skipn (S i) q)%list.

(** The test after [_processItem] in [_processItems]. *)
Definition removed (item : Item) : bool :=
  match type item with
  | LISTENER_ON | LISTENER_OFF | FCTN => true
  | _ => negb (valid item)
  end.

(** The loop of [_processItems] from index [i].  Every turn of the loop
    either advances [i] or shortens the queue, so the length of the queue at
    the start bounds the number of turns; [fuel] counts them down. *)
Fixpoint _processItems_loop (fuel i : nat) : M unit :=
  fun m =>
    match nth_error (_dataLayer m) i with
    | None => Normal tt m
    | Some itemConfig =>
        match fuel with
        | O => Unmodelled
        | S fuel' =>
            let item := new_Item itemConfig (Some i) in
            (_processItem item ;;
             if removed item
             then (fun m' =>
                     _processItems_loop fuel' i
                       (set_dataLayer (splice1 i (_dataLayer m')) m'))
             else _processItems_loop fuel' (S i)) m
        end
    end.

(** [_processItems()] *)
Definition _processItems : M unit :=
  fun m => _processItems_loop (List.length (_dataLayer m)) 0 m.

(** The manager as [_initialize] sets its fields, before the scan. *)
Definition fresh (queue : list value) : Manager :=
  {| _dataLayer := queue;
     _state := [];
     _previousStateCopy := [];
     _listenerManager := [];
     observed := [] |}.

(** [_initialize()], for the value found under [config.dataLayer], which is
    replaced by [[]] unless it is an array: the fields are set, then
    [_augment()] installs the methods above and [_processItems()] scans the
    queue. *)
Definition _initialize (dataLayer : value) : result unit :=
  _processItems (fresh (match dataLayer with VArr q => q | _ => [] end)).

(** ** Vocabulary of the statements *)

(** The left fold of [_customMerge] over a sequence of payloads. *)
Fixpoint foldMerge (state : obj) (payloads : list value) : option obj :=
  match payloads with
  | [] => Some state
  | d :: rest =>
      match _customMerge state d with
      | Some merged => foldMerge merged rest
      | None => None
      end
  end.

(** An argument of [push] that is classified as data or as an event. *)
Definition retained (itemConfig : value) : bool :=
  match type (new_Item itemConfig None) with
  | DATA | EVENT => true
  | _ => false
  end.

(** What [push] hands to [Array.prototype.push] for an argument. *)
Definition forwarded (itemConfig : value) : value :=
  if retained itemConfig then itemConfig else VUndef.

(** The calls of function payloads in a trace. *)
Definition isCall (e : event) : bool :=
  match e with Call _ _ _ => true | _ => false end.

Definition calls (es : list event) : list event := filter isCall es.

(** The function payloads among the arguments of a [push]. *)
Fixpoint functions (args : list value) : list fn :=
  match args with
  | [] => []
  | VFun f :: rest => f :: functions rest
  | _ :: rest => functions rest
  end.

(** No argument is a function that throws. *)
Definition quiet (itemConfig : value) : Prop :=
  match itemConfig with VFun f => fn_throws f = false | _ => True end.

(** A value without [null] at any depth. *)
Fixpoint nullFree (v : value) : bool :=
  match v with
  | VNull => false
  | VArr xs => forallb nullFree xs
  | VObj kvs =>
      (fix props (kvs : obj) : bool :=
         match kvs with
         | [] => true
         | (_, x) :: rest => nullFree x && props rest
         end) kvs
  | _ => true
  end.

(** The scan of [_processItems] told by structural recursion on the part of
    the queue not yet visited: [kept] is what stays before it. *)
Fixpoint scan (kept rest : list value) : M unit :=
  fun m =>
    match rest with
    | [] => Normal tt m
    | itemConfig :: rest' =>
        let item := new_Item itemConfig (Some (List.length kept)) in
        (_processItem item ;;
         if removed item
         then (fun m' => scan kept rest' (set_dataLayer (kept ++ rest')%list m'))
         else scan (kept ++ [itemConfig])%list rest') m
    end.

(** An argument or queue entry classified as data, and the payload it
    carries. *)
Definition isData (itemConfig : value) : Prop :=
  type (new_Item itemConfig None) = DATA.

Definition payload (itemConfig : value) : value :=
  data (new_Item itemConfig None).

(** The copy of the state kept by the last merge of a fold ([previous] when
    there is none). *)
Fixpoint foldPrevious (state previous : obj) (payloads : list value)
  : option obj :=
  match payloads with
  | [] => Some previous
  | d :: rest =>
      match _customMerge state d with
      | Some merged => foldPrevious merged state rest
      | None => None
      end
  end.

(** Sample payloads: [{data: {a: {b: 1, c: 2}}}], [{data: {a: {b: null}}}],
    a callback that returns and one that throws. *)
Definition sample_ab : value :=
  VObj [("data", VObj [("a", VObj [("b", VNum 1); ("c", VNum 2)])])].

Definition sample_delete_b : value :=
  VObj [("data", VObj [("a", VObj [("b", VNull)])])].

Definition returning : fn := mkFn 0 false.

Definition throwing : fn := mkFn 1 true.

(** What [assign(object, omitDeep(object, isNull))] makes of each own
    property: a [null] stays as it is, anything else is replaced by its
    clone without nulls. *)
Definition cleaned (kv : string * value) : string * value :=
  (fst kv,
   if lodash.isNull (snd kv) then snd kv
   else omittingCloneDeepCustomizer lodash.isNull (snd kv)).

(** [{on: "adobeDataLayer:change", handler: returning, scope: "past"}] *)
Definition sample_on_past : value :=
  VObj [("on", VStr "adobeDataLayer:change"); ("handler", VFun returning);
        ("scope", VStr "past")].

(** [{on: e, handler: h}] *)
Definition listener_on (e : string) (h : fn) : value :=
  VObj [("on", VStr e); ("handler", VFun h)].

(** A manager with one registered listener of the change event whose
    handler throws. *)
Definition sample_throwing_listener : Listener :=
  {| l_event := constants.dataLayerEvent_CHANGE;
     l_path := None;
     l_scope := FUTURE;
     l_handler := Some throwing |}.

Definition sample_listening : Manager :=
  {| _dataLayer := [];
     _state := [];
     _previousStateCopy := [];
     _listenerManager := [sample_throwing_listener];
     observed := [] |}.

(** The payloads a [push] merges: the [data] of a data item, and of an
    event item that carries one. *)
Definition mergedPayloads (args : list value) : list value :=
  flat_map (fun c => if retained c && truthy (payload c) then [payload c] else [])
           args.

(** No listener of scope past. *)
Definition noPast (registry : list Listener) : Prop :=
  Forall (fun l => l_scope l <> PAST) registry.







(** The replay of a list of queue entries against one listener. *)
Definition replay (l : Listener) (entries : list value) : list event :=
  flat_map (fun c => ListenerManager.triggerListener l (new_Item c None)) entries.

(** What [assign(object, omitDeep(object, isNull))] makes of a value found
    under a key. *)
Definition cleanedValue (v : value) : value :=
  if lodash.isNull v then v else omittingCloneDeepCustomizer lodash.isNull v.


(** An argument that [push] hands to [_processItem]: a data, event or
    function item. *)
Definition dispatched (itemConfig : value) : bool :=
  match type (new_Item itemConfig None) with
  | DATA | EVENT | FCTN => true
  | _ => false
  end.

(** A value without a function at any depth. *)
Fixpoint functionFree (v : value) : bool :=
  match v with
  | VFun _ => false
  | VArr xs => forallb functionFree xs
  | VObj kvs =>
      (fix props (kvs : obj) : bool :=
         match kvs with
         | [] => true
         | (_, x) :: rest => functionFree x && props rest
         end) kvs
  | _ => true
  end.

(** What holds of the manager as a call leaves it, whether it returns or
    throws. *)
Definition leaves {A} (r : result A) (P : Manager -> Prop) : Prop :=
  match r with
  | Normal _ m' => P m'
  | Throw _ m' => P m'
  | Unmodelled => True
  end.

(** * Properties *)

(** ** Induction on values *)

Section ValueInduction.
Variable P : value -> Prop.
Hypothesis HUndef : P VUndef.
Hypothesis HNull : P VNull.
Hypothesis HBool : forall b, P (VBool b).
Hypothesis HNum : forall n, P (VNum n).
Hypothesis HStr : forall s, P (VStr s).
Hypothesis HFun : forall f, P (VFun f).
Hypothesis HArr : forall xs, Forall P xs -> P (VArr xs).
Hypothesis HObj : forall kvs, Forall (fun kv => P (snd kv)) kvs -> P (VObj kvs).

Fixpoint value_nested_ind (v : value) : P v :=
  match v with
  | VUndef => HUndef
  | VNull => HNull
  | VBool b => HBool b
  | VNum n => HNum n
  | VStr s => HStr s
  | VFun f => HFun f
  | VArr xs =>
      HArr xs
        ((fix elems (xs : list value) : Forall P xs :=
            match xs with
            | [] => Forall_nil P
            | x :: rest => Forall_cons x (value_nested_ind x) (elems rest)
            end) xs)
  | VObj kvs =>
      HObj kvs
        ((fix props (kvs : obj) : Forall (fun kv => P (snd kv)) kvs :=
            match kvs with
            | [] => Forall_nil _
            | (k, x) :: rest =>
                Forall_cons (k, x) (value_nested_ind x) (props rest)
            end) kvs)
  end.
End ValueInduction.

(** ** The deep copy is a copy *)

Lemma cloneDeepIn_id (v : value) : lodash.cloneDeepIn v = v.
Proof.
  induction v using value_nested_ind; simpl; try reflexivity.
  - f_equal. induction H as [|x xs Hx _ IH]; simpl; [reflexivity|].
    now rewrite Hx, IH.
  - f_equal. induction H as [|[k x] kvs Hx _ IH]; simpl; [reflexivity|].
    simpl in Hx. now rewrite Hx, IH.
Qed.

Lemma cloneDeepObject_id (o : obj) : lodash.cloneDeepObject o = o.
Proof.
  pose proof (cloneDeepIn_id (VObj o)) as H. simpl in H.
  now injection H.
Qed.


#[local] Arguments new_Listener : simpl never.
#[local] Arguments new_Item : simpl never.
#[local] Arguments _getBefore : simpl never.
#[local] Arguments _customMerge : simpl never.

(** The two ways [_updateState] can go. *)
Ltac merge_cases m item :=
  unfold bind, _updateState;
  destruct (_customMerge (_state m) (data item)); cbn.

(** ** The monad and the trace *)

Lemma emit_nil (m : Manager) : emit [] m = Normal tt m.
Proof. destruct m; unfold emit; simpl. now rewrite app_nil_r. Qed.

Lemma emit_emit (a b : list event) (m : Manager) :
  (emit a ;; emit b) m = emit (a ++ b)%list m.
Proof. unfold bind, emit; simpl. now rewrite app_assoc. Qed.

Lemma triggerEach_emit (l : Listener) (items : list Item) (m : Manager) :
  triggerEach l items m
  = emit (flat_map (ListenerManager.triggerListener l) items) m.
Proof.
  revert m. induction items as [|it items IH]; intros m; simpl.
  - now rewrite emit_nil.
  - unfold bind, triggerListener at 1.
    unfold emit at 1. rewrite IH. unfold emit; simpl.
    now rewrite app_assoc.
Qed.

Lemma leaves_bind {A B} (c : M A) (k : A -> M B) (m : Manager)
      (P Q : Manager -> Prop) :
  leaves (c m) P ->
  (forall m', P m' -> Q m') ->
  (forall a m', P m' -> leaves (k a m') Q) ->
  leaves ((x <- c ;; k x) m) Q.
Proof.
  unfold bind. destruct (c m) as [a m'|f m'|]; simpl; auto.
Qed.

Lemma leaves_weaken {A} (r : result A) (P Q : Manager -> Prop) :
  leaves r P -> (forall m, P m -> Q m) -> leaves r Q.
Proof. destruct r; simpl; auto. Qed.

(** ** What the dispatcher leaves alone *)

(** Only [push] and the start-up scan write the queue. *)
Lemma _processItem_dataLayer (item : Item) (m : Manager) :
  leaves (_processItem item m) (fun m' => _dataLayer m' = _dataLayer m).
Proof.
  unfold _processItem.
  destruct (valid item); cbn; [|reflexivity].
  destruct (type item); cbn.
  - unfold bind, _updateState.
    destruct (_customMerge (_state m) (data item)); simpl; reflexivity.
  - destruct (config item); simpl; trivial.
    unfold bind; simpl. destruct (fn_throws f); simpl; reflexivity.
  - unfold bind. destruct (truthy (data item)); simpl; [|reflexivity].
    unfold _updateState.
    destruct (_customMerge (_state m) (data item)); simpl; reflexivity.
  - destruct (l_scope (new_Listener item)).
    + rewrite triggerEach_emit. reflexivity.
    + unfold bind, register.
      destruct (ListenerManager.register _ _); reflexivity.
    + unfold bind, register.
      destruct (ListenerManager.register _ _) as [[|] r]; simpl;
        [rewrite triggerEach_emit|]; reflexivity.
  - reflexivity.
  - exact I.
Qed.

(** The trace only grows. *)
Lemma _processItem_observed (item : Item) (m : Manager) :
  leaves (_processItem item m)
         (fun m' => exists es, observed m' = (observed m ++ es)%list).
Proof.
  unfold _processItem.
  destruct (valid item); cbn; [|eexists; reflexivity].
  destruct (type item); cbn.
  - unfold bind, _updateState.
    destruct (_customMerge (_state m) (data item)); simpl; trivial.
    eexists; reflexivity.
  - destruct (config item); simpl; trivial.
    unfold bind; simpl. destruct (fn_throws f); simpl; eexists; reflexivity.
  - unfold bind. destruct (truthy (data item)); simpl; [|eexists; reflexivity].
    unfold _updateState.
    destruct (_customMerge (_state m) (data item)); simpl; trivial.
    eexists; reflexivity.
  - destruct (l_scope (new_Listener item)).
    + rewrite triggerEach_emit. eexists; reflexivity.
    + unfold bind, register.
      destruct (ListenerManager.register _ _); simpl.
      exists []. now rewrite app_nil_r.
    + unfold bind, register.
      destruct (ListenerManager.register _ _) as [[|] r]; simpl.
      * rewrite triggerEach_emit. eexists; reflexivity.
      * exists []. now rewrite app_nil_r.
  - exists []. now rewrite app_nil_r.
  - exact I.
Qed.

Lemma bind_Normal {A B} (c : M A) (k : A -> M B) (m m2 : Manager) (b : B) :
  (x <- c ;; k x) m = Normal b m2 ->
  exists a m1, c m = Normal a m1 /\ k a m1 = Normal b m2.
Proof.
  unfold bind. destruct (c m) as [a m1|f m1|]; try discriminate.
  intros H. now exists a, m1.
Qed.

Lemma new_Item_valid (itemConfig : value) (i : option nat) :
  valid (new_Item itemConfig i)
  = match type (new_Item itemConfig i) with INVALID => false | _ => true end.
Proof. reflexivity. Qed.

Lemma new_Item_type (itemConfig : value) (i j : option nat) :
  type (new_Item itemConfig i) = type (new_Item itemConfig j).
Proof. reflexivity. Qed.

(** The listener registry is written by listener items only. *)
Lemma _processItem_registry (item : Item) (m : Manager) :
  type item <> LISTENER_ON -> type item <> LISTENER_OFF ->
  leaves (_processItem item m)
         (fun m' => _listenerManager m' = _listenerManager m).
Proof.
  intros Hon Hoff. unfold _processItem.
  destruct (valid item); cbn; [|reflexivity].
  destruct (type item); cbn; try congruence.
  - merge_cases m item; reflexivity.
  - destruct (config item); cbn; trivial.
    unfold bind; cbn. destruct (fn_throws f); cbn; reflexivity.
  - unfold bind. destruct (truthy (data item)); cbn; [|reflexivity].
    merge_cases m item; reflexivity.
  - exact I.
Qed.

(** ** The arguments of [push] *)

(** The loop over the arguments writes neither the queue nor the
    registry: listener items are dropped without being processed. *)
Lemma push_forEach_frame (args : list value) (m : Manager) :
  leaves (push_forEach args m)
         (fun m' => _dataLayer m' = _dataLayer m
                    /\ _listenerManager m' = _listenerManager m).
Proof.
  revert m. induction args as [|c args IH]; intros m; [now cbn|].
  cbn [push_forEach].
  set (item := new_Item c None).
  assert (Hstep : forall (k : M bool),
             leaves (k m) (fun m' => _dataLayer m' = _dataLayer m
                                     /\ _listenerManager m' = _listenerManager m) ->
             leaves ((deleted <- k ;;
                      filtered <- push_forEach args ;;
                      ret ((if deleted then None else Some c) :: filtered)) m)
                    (fun m' => _dataLayer m' = _dataLayer m
                               /\ _listenerManager m' = _listenerManager m)).
  { intros k Hk. unfold bind at 1.
    destruct (k m) as [d m1|f m1|]; cbn in *; trivial.
    unfold bind. specialize (IH m1).
    destruct (push_forEach args m1) as [fl m2|f m2|]; cbn in *; trivial.
    - destruct IH as [-> ->]. exact Hk.
    - destruct IH as [-> ->]. exact Hk. }
  assert (Hproc : forall b : bool,
             type item <> LISTENER_ON -> type item <> LISTENER_OFF ->
             leaves ((_processItem item ;; ret b) m)
                    (fun m' => _dataLayer m' = _dataLayer m
                               /\ _listenerManager m' = _listenerManager m)).
  { intros b Hon Hoff.
    pose proof (_processItem_dataLayer item m) as Hq.
    pose proof (_processItem_registry item m Hon Hoff) as Hr.
    unfold bind. destruct (_processItem item m); cbn in *; auto. }
  destruct (type item) eqn:Ht; apply Hstep;
    try (apply Hproc; congruence); cbn; auto.
Qed.

(** [filteredArguments] after the loop: the retained arguments in their
    places, every other index deleted. *)
Lemma push_forEach_filtered (args : list value) (m m' : Manager)
      (filtered : list (option value)) :
  push_forEach args m = Normal filtered m' ->
  filtered = map (fun c => if retained c then Some c else None) args.
Proof.
  revert m m' filtered. induction args as [|c args IH]; intros m m' fl H.
  - cbn in H. now inversion H.
  - cbn [push_forEach] in H.
    apply bind_Normal in H as (d & m1 & Hd & H).
    apply bind_Normal in H as (fl' & m2 & Hfl & H).
    cbn in H. inversion H; subst; clear H.
    apply IH in Hfl. subst fl'. cbn [map]. f_equal.
    unfold retained. rewrite new_Item_valid in Hd.
    destruct (type (new_Item c None)) eqn:Ht; cbn in Hd;
      try (apply bind_Normal in Hd as (u & m3 & _ & Hd); cbn in Hd);
      inversion Hd; reflexivity.
Qed.

Lemma retained_truthy (c : value) : retained c = true -> truthy c = true.
Proof.
  unfold retained, new_Item; cbn.
  destruct c; cbn; try discriminate; trivial.
Qed.

(** [push], once the loop over the arguments has returned. *)
Lemma push_Normal (args : list value) (m m' : Manager) (r : value) :
  push args m = Normal r m' ->
  exists m1,
    push_forEach args m = Normal (map (fun c => if retained c then Some c else None) args) m1
    /\ _dataLayer m1 = _dataLayer m
    /\ _listenerManager m1 = _listenerManager m
    /\ if retained (hd VUndef args)
       then r = VNum (Z.of_nat (List.length (_dataLayer m ++ map forwarded args)))
            /\ m' = set_dataLayer (_dataLayer m ++ map forwarded args)%list m1
       else r = VUndef /\ m' = m1.
Proof.
  intros H. unfold push in H.
  apply bind_Normal in H as (fl & m1 & Hfl & H).
  pose proof (push_forEach_filtered _ _ _ _ Hfl) as ->.
  pose proof (push_forEach_frame args m) as Hframe.
  rewrite Hfl in Hframe. cbn in Hframe. destruct Hframe as [Hq Hr].
  exists m1. repeat split; auto.
  destruct args as [|c args].
  - cbn in H. inversion H; subst. change (retained (hd VUndef [])) with false.
    cbn. auto.
  - cbn [hd map] in *. destruct (retained c) eqn:Hc.
    + cbn [argument] in H. rewrite (retained_truthy _ Hc) in H.
      unfold Array_push_apply in H. inversion H; subst; clear H.
      assert (Hmap : map argument
                       (map (fun c0 => if retained c0 then Some c0 else None) args)
                     = map forwarded args).
      { rewrite map_map. apply map_ext. intros a. unfold forwarded.
        now destruct (retained a). }
      cbn [map]. unfold forwarded at 1 3. rewrite Hc, Hmap, Hq. auto.
    + cbn in H. inversion H; subst. auto.
Qed.

(** ** The start-up scan *)

Lemma _processItems_loop_eq (fuel i : nat) (m : Manager) :
  _processItems_loop fuel i m
  = match nth_error (_dataLayer m) i with
    | None => Normal tt m
    | Some itemConfig =>
        match fuel with
        | O => Unmodelled
        | S fuel' =>
            let item := new_Item itemConfig (Some i) in
            (_processItem item ;;
             if removed item
             then (fun m' =>
                     _processItems_loop fuel' i
                       (set_dataLayer (splice1 i (_dataLayer m')) m'))
             else _processItems_loop fuel' (S i)) m
        end
    end.
Proof. destruct fuel; reflexivity. Qed.

Lemma splice1_middle (kept rest : list value) (c : value) :
  splice1 (List.length kept) (kept ++ c :: rest) = (kept ++ rest)%list.
Proof.
  unfold splice1. induction kept as [|a kept IH]; cbn; [reflexivity|].
  f_equal. exact IH.
Qed.

(** The loop with fuel is the structural scan: the length of the part of
    the queue not yet visited is fuel enough. *)
Lemma _processItems_loop_scan (rest kept : list value) (fuel : nat) (m : Manager) :
  _dataLayer m = (kept ++ rest)%list ->
  List.length rest <= fuel ->
  _processItems_loop fuel (List.length kept) m = scan kept rest m.
Proof.
  revert kept fuel m.
  induction rest as [|c rest IH]; intros kept fuel m Hq Hfuel;
    rewrite _processItems_loop_eq, Hq.
  - rewrite app_nil_r.
    replace (nth_error kept (List.length kept)) with (@None value); [reflexivity|].
    symmetry. apply nth_error_None. lia.
  - rewrite nth_error_app2, Nat.sub_diag by lia. cbn [nth_error].
    destruct fuel as [|fuel]; [cbn in Hfuel; lia|].
    cbn [scan]. cbv zeta.
    pose proof (_processItem_dataLayer (new_Item c (Some (List.length kept))) m) as Hframe.
    unfold bind.
    destruct (_processItem (new_Item c (Some (List.length kept))) m)
      as [u m1|f m1|]; cbn in Hframe; try reflexivity.
    destruct (removed (new_Item c (Some (List.length kept)))).
    + rewrite Hframe, Hq, splice1_middle.
      apply IH; [reflexivity|cbn in Hfuel; lia].
    + replace (S (List.length kept)) with (List.length (kept ++ [c])%list)
        by (rewrite length_app; cbn; lia).
      apply IH; [rewrite Hframe, Hq, <- app_assoc; reflexivity|cbn in Hfuel; lia].
Qed.

Lemma _processItems_scan (m : Manager) :
  _processItems m = scan [] (_dataLayer m) m.
Proof.
  unfold _processItems.
  apply (_processItems_loop_scan (_dataLayer m) [] (List.length (_dataLayer m)) m);
    [reflexivity|lia].
Qed.

(** ** Data commands *)

(** One data item: the state is copied, merged, and the listeners are
    triggered; whatever the handlers do, the call returns. *)
Lemma _processItem_data (item : Item) (m : Manager) (merged : obj) :
  type item = DATA -> valid item = true ->
  _customMerge (_state m) (data item) = Some merged ->
  _processItem item m
  = Normal tt {| _dataLayer := _dataLayer m;
                 _state := merged;
                 _previousStateCopy := _state m;
                 _listenerManager := _listenerManager m;
                 observed :=
                   (observed m
                    ++ ListenerManager.triggerListeners (_listenerManager m) item)%list |}.
Proof.
  intros Ht Hv Hmerge. unfold _processItem. rewrite Hv, Ht. cbn.
  unfold bind, _updateState. rewrite Hmerge, cloneDeepObject_id.
  reflexivity.
Qed.

Lemma foldPrevious_removelast (payloads : list value) (s p s' : obj) :
  payloads <> [] ->
  foldMerge s payloads = Some s' ->
  foldPrevious s p payloads = foldMerge s (removelast payloads).
Proof.
  revert s p. induction payloads as [|d rest IH]; intros s p Hne H;
    [congruence|].
  cbn [foldMerge foldPrevious] in *.
  destruct rest as [|d' rest].
  - cbn. now destruct (_customMerge s d).
  - change (removelast (d :: d' :: rest)) with (d :: removelast (d' :: rest)).
    cbn [foldMerge].
    destruct (_customMerge s d) as [s1|]; [|discriminate].
    apply IH; [discriminate|assumption].
Qed.

Lemma push_forEach_data (cfgs : list value) (m : Manager) (s' : obj) :
  Forall isData cfgs ->
  foldMerge (_state m) (map payload cfgs) = Some s' ->
  exists m',
    push_forEach cfgs m = Normal (map Some cfgs) m'
    /\ _state m' = s'
    /\ foldPrevious (_state m) (_previousStateCopy m) (map payload cfgs)
       = Some (_previousStateCopy m').
Proof.
  revert m. induction cfgs as [|c cfgs IH]; intros m Hall Hfold.
  - cbn in *. exists m. inversion Hfold. auto.
  - inversion Hall as [|? ? Hc Hrest]; subst.
    cbn [map foldMerge foldPrevious] in *.
    destruct (_customMerge (_state m) (payload c)) as [s1|] eqn:Hm;
      [|discriminate].
    cbn [push_forEach]. unfold isData in Hc. rewrite Hc.
    assert (Hv : valid (new_Item c None) = true)
      by (rewrite new_Item_valid, Hc; reflexivity).
    rewrite Hv. cbn [negb].
    unfold bind at 1 2.
    rewrite (_processItem_data _ m s1 Hc Hv Hm). cbn [ret]. unfold bind.
    match goal with |- context [push_forEach cfgs ?m1] =>
      destruct (IH m1 Hrest Hfold) as (m' & Hrun & Hs & Hp) end.
    exists m'. rewrite Hrun. cbn in *. auto.
Qed.

Lemma scan_data (rest kept : list value) (m : Manager) (s' : obj) :
  Forall isData rest ->
  foldMerge (_state m) (map payload rest) = Some s' ->
  exists m',
    scan kept rest m = Normal tt m'
    /\ _state m' = s'
    /\ _dataLayer m' = _dataLayer m
    /\ foldPrevious (_state m) (_previousStateCopy m) (map payload rest)
       = Some (_previousStateCopy m').
Proof.
  revert kept m. induction rest as [|c rest IH]; intros kept m Hall Hfold.
  - cbn in *. exists m. inversion Hfold. auto.
  - inversion Hall as [|? ? Hc Hrest]; subst.
    cbn [map foldMerge foldPrevious] in *.
    destruct (_customMerge (_state m) (payload c)) as [s1|] eqn:Hm;
      [|discriminate].
    cbn [scan]. cbv zeta. unfold isData in Hc.
    set (item := new_Item c (Some (List.length kept))).
    assert (Ht : type item = DATA) by exact Hc.
    assert (Hv : valid item = true)
      by (unfold item; rewrite new_Item_valid; fold item; rewrite Ht; reflexivity).
    unfold bind, removed. rewrite Ht, Hv. cbn [negb].
    rewrite (_processItem_data item m s1 Ht Hv Hm).
    match goal with |- context [scan (kept ++ [c]) rest ?m1] =>
      destruct (IH (kept ++ [c])%list m1 Hrest Hfold) as (m' & Hrun & Hs & Hq & Hp) end.
    exists m'. cbn in *. auto.
Qed.

(** C1: for every sequence of Data commands the dispatcher processes, through
    one variadic [push] on any manager or as the queue found at
    construction, the state afterwards is the left fold of [_customMerge]
    over their [data] payloads in order, and the previous-state copy is the
    state as it stood before the last of these merges. *)
Theorem data_commands_fold_merge (m : Manager) (cfgs : list value) (s' : obj) :
  Forall isData cfgs ->
  (foldMerge (_state m) (map payload cfgs) = Some s' ->
   exists r m',
     push cfgs m = Normal r m'
     /\ _state m' = s'
     /\ (cfgs <> [] ->
         foldMerge (_state m) (removelast (map payload cfgs))
         = Some (_previousStateCopy m')))
  /\ (foldMerge [] (map payload cfgs) = Some s' ->
      exists m',
        _initialize (VArr cfgs) = Normal tt m'
        /\ _state m' = s'
        /\ (cfgs <> [] ->
            foldMerge [] (removelast (map payload cfgs))
            = Some (_previousStateCopy m'))).
Proof.
  intros Hall. split; intros Hfold.
  - destruct (push_forEach_data cfgs m s' Hall Hfold) as (m1 & Hrun & Hs & Hp).
    unfold push, bind. rewrite Hrun.
    assert (Hprev : cfgs <> [] ->
                    foldMerge (_state m) (removelast (map payload cfgs))
                    = Some (_previousStateCopy m1)).
    { intros Hne. rewrite <- Hp. symmetry.
      apply foldPrevious_removelast with (s' := s'); [|assumption].
      destruct cfgs; [congruence|discriminate]. }
    destruct (truthy (argument (hd None (map Some cfgs)))).
    + unfold Array_push_apply. do 2 eexists. split; [reflexivity|].
      cbn. auto.
    + do 2 eexists. split; [reflexivity|]. auto.
  - unfold _initialize. rewrite _processItems_scan.
    destruct (scan_data cfgs [] (fresh cfgs) s' Hall Hfold)
      as (m1 & Hrun & Hs & _ & Hp).
    exists m1. cbn [fresh _dataLayer]. split; [exact Hrun|]. split; [exact Hs|].
    intros Hne. rewrite <- Hp. symmetry.
    apply foldPrevious_removelast with (s' := s'); [|assumption].
    destruct cfgs; [congruence|discriminate].
Qed.

Lemma data_commands_fold_merge_witness :
  Forall isData [sample_ab; sample_delete_b]
  /\ (foldMerge [] (map payload [sample_ab; sample_delete_b])
      = Some [("a", VObj [("c", VNum 2)])] ->
      exists r m',
        push [sample_ab; sample_delete_b] (fresh []) = Normal r m'
        /\ _state m' = [("a", VObj [("c", VNum 2)])]
        /\ ([sample_ab; sample_delete_b] <> [] ->
            foldMerge [] (removelast (map payload [sample_ab; sample_delete_b]))
            = Some (_previousStateCopy m'))).
Proof.
  assert (H : Forall isData [sample_ab; sample_delete_b])
    by (repeat constructor).
  split; [exact H|].
  exact (proj1 (data_commands_fold_merge
                  (fresh []) [sample_ab; sample_delete_b]
                  [("a", VObj [("c", VNum 2)])] H)).
Defined.

(** ** The merge *)

Lemma omitElems_reject (p : value -> bool) (c : value -> value) (xs : list value) :
  lodash.omitElems p c xs = map c (lodash.reject p xs).
Proof.
  unfold lodash.reject. induction xs as [|x xs IH]; cbn; [reflexivity|].
  destruct (p x); cbn; now rewrite IH.
Qed.

(** Index by index: below the length of the source each slot is the merge
    of the two slots, and beyond it the destination is kept. *)
Lemma mergeElems_pointwise (c : value -> value -> value)
      (d : value -> value -> option value) (source target merged : list value) :
  lodash.mergeElems c d target source = Some merged ->
  List.length merged = Nat.max (List.length target) (List.length source)
  /\ (forall i, i < List.length source ->
        lodash.mergeProp c d (nth i target VUndef) (nth i source VUndef)
        = Some (nth i merged VUndef))
  /\ (forall i, List.length source <= i ->
        nth i merged VUndef = nth i target VUndef).
Proof.
  revert target merged.
  induction source as [|s source IH]; intros target merged H; cbn in H.
  - inversion H; subst. repeat split.
    + cbn. lia.
    + cbn. lia.
  - destruct (lodash.mergeProp c d (hd VUndef target) s) as [nv|] eqn:Hnv;
      [|discriminate].
    destruct (lodash.mergeElems c d (tl target) source) as [rest|] eqn:Hrest;
      [|discriminate].
    inversion H; subst; clear H.
    destruct (IH _ _ Hrest) as (Hlen & Hlt & Hge).
    repeat split.
    + cbn. rewrite Hlen. destruct target; cbn; lia.
    + intros [|i] Hi.
      * cbn. destruct target; exact Hnv.
      * cbn in Hi. cbn [nth]. rewrite <- Hlt by lia.
        destruct target; cbn; [destruct i|]; reflexivity.
    + intros [|i] Hi; cbn in Hi; [lia|].
      cbn [nth]. rewrite Hge by lia.
      destruct target; cbn; [destruct i|]; reflexivity.
Qed.

(** A source slot that is not an object overwrites, and [null] or
    [undefined] marks the slot with [null]. *)
Lemma mergeProp_scalar (d : value -> value -> option value) (objValue srcValue : value) :
  lodash.isObject srcValue = false ->
  lodash.mergeProp customizer d objValue srcValue
  = Some (if isNil srcValue then VNull else srcValue).
Proof.
  intros H. unfold lodash.mergeProp, customizer. rewrite H.
  now destruct srcValue.
Qed.

Lemma get_set_same (k : string) (v : value) (o : obj) :
  get k (set k v o) = v.
Proof.
  induction o as [|[k' v'] o IH]; cbn.
  - now rewrite String.eqb_refl.
  - destruct (k =? k') eqn:E; cbn; rewrite E; auto.
Qed.

Lemma set_keys (k : string) (v : value) (o : obj) :
  has k o = true -> map fst (set k v o) = map fst o.
Proof.
  induction o as [|[k' v'] o IH]; cbn; [discriminate|].
  destruct (k =? k') eqn:E; cbn; [reflexivity|].
  intros H. now rewrite IH.
Qed.

Lemma has_In (k : string) (o : obj) : has k o = true <-> In k (map fst o).
Proof.
  induction o as [|[k' v'] o IH]; cbn; [split; [discriminate|tauto]|].
  rewrite orb_true_iff, IH, String.eqb_eq. intuition congruence.
Qed.

Lemma set_app_fresh (k : string) (v v' : value) (pre suf : obj) :
  has k pre = false ->
  set k v (pre ++ (k, v') :: suf)%list = (pre ++ (k, v) :: suf)%list.
Proof.
  induction pre as [|[k0 v0] pre IH]; cbn.
  - now rewrite String.eqb_refl.
  - intros H. apply orb_false_iff in H as [E H]. rewrite E. now rewrite IH.
Qed.

Lemma assign_omit_gen (suf pre : obj) :
  NoDup (map fst (pre ++ suf)) ->
  lodash.assign (map cleaned pre ++ suf)%list
    (lodash.omitProps lodash.isNull (omittingCloneDeepCustomizer lodash.isNull) suf)
  = (map cleaned pre ++ map cleaned suf)%list.
Proof.
  unfold lodash.assign. revert pre.
  induction suf as [|[k v] suf IH]; intros pre Hnd; [reflexivity|].
  assert (Hnd' : NoDup (map fst ((pre ++ [(k, v)]) ++ suf)))
    by (now rewrite <- app_assoc).
  specialize (IH (pre ++ [(k, v)])%list Hnd').
  rewrite map_app in IH. cbn [map] in IH.
  rewrite <- !app_assoc in IH. cbn [app] in IH.
  cbn [lodash.omitProps map]. destruct (lodash.isNull v) eqn:Hv.
  - assert (Hc : cleaned (k, v) = (k, v))
      by (unfold cleaned; cbn [fst snd]; now rewrite Hv).
    rewrite Hc in *. exact IH.
  - assert (Hc : cleaned (k, v)
                 = (k, omittingCloneDeepCustomizer lodash.isNull v))
      by (unfold cleaned; cbn [fst snd]; now rewrite Hv).
    rewrite Hc in *. cbn [fold_left fst snd].
    rewrite set_app_fresh; [exact IH|].
    destruct (has k (map cleaned pre)) eqn:Hhas; [|reflexivity].
    apply has_In in Hhas. rewrite map_map in Hhas. cbn [cleaned fst] in Hhas.
    rewrite map_app in Hnd. cbn [map fst] in Hnd.
    apply NoDup_remove_2 in Hnd. exfalso. apply Hnd.
    apply in_or_app. left. exact Hhas.
Qed.

Lemma assign_omit (o : obj) :
  NoDup (map fst o) ->
  lodash.assign o
    (lodash.omitProps lodash.isNull (omittingCloneDeepCustomizer lodash.isNull) o)
  = map cleaned o.
Proof. intros H. exact (assign_omit_gen o [] H). Qed.

Lemma get_map_cleaned (k : string) (o : obj) :
  get k (map cleaned o)
  = if lodash.isNull (get k o) then get k o
    else omittingCloneDeepCustomizer lodash.isNull (get k o).
Proof.
  induction o as [|[k' v] o IH]; cbn; [reflexivity|].
  destruct (k =? k'); [reflexivity|exact IH].
Qed.

Lemma get_has (k : string) (o : obj) : get k o <> VUndef -> has k o = true.
Proof.
  induction o as [|[k' v] o IH]; cbn; [congruence|].
  destruct (k =? k'); cbn; auto.
Qed.

Lemma set_NoDup (k : string) (v : value) (o : obj) :
  NoDup (map fst o) -> NoDup (map fst (set k v o)).
Proof.
  intros Hnd. destruct (has k o) eqn:Hk.
  - now rewrite set_keys.
  - assert (Hset : set k v o = (o ++ [(k, v)])%list).
    { clear Hnd. induction o as [|[k' v'] o IH]; cbn in *; [reflexivity|].
      apply orb_false_iff in Hk as [E Hk]. rewrite E. now rewrite IH. }
    rewrite Hset, map_app. cbn.
    apply NoDup_app; [exact Hnd|repeat constructor; intros []|].
    intros x Hin [<-|[]]. apply has_In in Hin. congruence.
Qed.

Lemma assignMergeValue_NoDup (k : string) (v : value) (o : obj) :
  NoDup (map fst o) -> NoDup (map fst (lodash.assignMergeValue o k v)).
Proof.
  intros Hnd. unfold lodash.assignMergeValue.
  destruct v; try (now apply set_NoDup).
  destruct (has k o); [assumption|now apply set_NoDup].
Qed.

Lemma mergeProps_NoDup (c : value -> value -> value)
      (d : value -> value -> option value) (source object merged : obj) :
  NoDup (map fst object) ->
  lodash.mergeProps c d object source = Some merged ->
  NoDup (map fst merged).
Proof.
  revert object. induction source as [|[k s] source IH]; intros object Hnd H.
  - cbn in H. now inversion H; subst.
  - cbn in H. destruct (lodash.mergeProp c d (get k object) s); [|discriminate].
    apply IH in H; [assumption|]. now apply assignMergeValue_NoDup.
Qed.

Lemma mergeWith_NoDup (object : obj) (source : value) (merged : obj) :
  NoDup (map fst object) ->
  lodash.mergeWith object source customizer = Some merged ->
  NoDup (map fst merged).
Proof.
  intros Hnd H. unfold lodash.mergeWith in H.
  destruct source as [| | | |s|f|xs|src];
    try (inversion H; subst; assumption).
  - destruct s; [inversion H; subst; assumption|discriminate].
  - destruct xs; [inversion H; subst; assumption|discriminate].
  - eapply mergeProps_NoDup; eauto.
Qed.

(** After a merge every own property of the object is its cleaned self. *)
Lemma _customMerge_cleaned (object : obj) (source : value) (r : obj) :
  NoDup (map fst object) ->
  _customMerge object source = Some r ->
  exists merged,
    lodash.mergeWith object source customizer = Some merged
    /\ r = map cleaned merged.
Proof.
  intros Hnd H. unfold _customMerge in H.
  destruct (lodash.mergeWith object source customizer) as [merged|] eqn:Hm;
    [|discriminate].
  exists merged. split; [reflexivity|].
  cbn [omitDeep omittingCloneDeepCustomizer] in H.
  inversion H; subst. apply assign_omit.
  eapply mergeWith_NoDup; eauto.
Qed.

(** The clone made by [omitDeep(_, isNull)] holds no [null]. *)
Lemma omitting_nullFree (v : value) :
  v <> VNull -> nullFree (omittingCloneDeepCustomizer lodash.isNull v) = true.
Proof.
  induction v using value_nested_ind; intros Hv; cbn; try reflexivity;
    try congruence; clear Hv.
  - induction H as [|x xs Hx _ IH]; cbn; [reflexivity|].
    destruct (lodash.isNull x) eqn:Hn; [exact IH|].
    cbn. rewrite IH, Hx; [reflexivity|].
    intros ->. discriminate.
  - induction H as [|[k x] kvs Hx _ IH]; cbn; [reflexivity|].
    destruct (lodash.isNull x) eqn:Hn; [exact IH|].
    cbn in *. rewrite Hx; [exact IH|].
    intros ->. discriminate.
Qed.

(** Below the top level the merge does what it sets out to do: an own
    property of the merged object is either a [null] left at the top or a
    value without [null] at any depth. *)
Lemma _customMerge_nullFree_below (object : obj) (source : value) (r : obj)
      (k : string) :
  NoDup (map fst object) ->
  _customMerge object source = Some r ->
  get k r = VNull \/ nullFree (get k r) = true.
Proof.
  intros Hnd H.
  destruct (_customMerge_cleaned _ _ _ Hnd H) as (merged & _ & ->).
  rewrite get_map_cleaned.
  destruct (get k merged) eqn:Hg; cbn; auto.
  - right. change (nullFree (omittingCloneDeepCustomizer lodash.isNull (VArr xs)) = true).
    apply omitting_nullFree. discriminate.
  - right. change (nullFree (omittingCloneDeepCustomizer lodash.isNull (VObj kvs)) = true).
    apply omitting_nullFree. discriminate.
Qed.

(** C2: the merge does not keep its target free of [null] at the top level.
    Merging [{a: null}] into [{a: 1}] leaves [{a: null}]: [mergeWith] writes
    the [null], the clone made by [omitDeep] omits the key, and [assign]
    copies what the clone has without deleting what it lacks.  One level
    down the same deletion works: [{a: {b: null}}] merged into
    [{a: {b: 1, c: 2}}] gives [{a: {c: 2}}]. *)
Theorem customMerge_top_level_null_stays :
  _customMerge [("a", VNum 1)] (VObj [("a", VNull)]) = Some [("a", VNull)]
  /\ _customMerge [("a", VObj [("b", VNum 1); ("c", VNum 2)])]
                  (VObj [("a", VObj [("b", VNull)])])
     = Some [("a", VObj [("c", VNum 2)])].
Proof. split; reflexivity. Qed.

(** C3 (the claim as stated fails): an array merged onto an array does not
    replace it.  Merging [{a: [4]}] into [{a: [1, 2, 3]}] gives
    [{a: [4, 2, 3]}], not [{a: [4]}]. *)
Lemma arrays_are_not_replaced_wholesale :
  _customMerge [("a", VArr [VNum 1; VNum 2; VNum 3])]
               (VObj [("a", VArr [VNum 4])])
  = Some [("a", VArr [VNum 4; VNum 2; VNum 3])]
  /\ _customMerge [("a", VArr [VNum 1; VNum 2; VNum 3])]
                  (VObj [("a", VArr [VNum 4])])
     <> Some [("a", VArr [VNum 4])].
Proof. split; [reflexivity|discriminate]. Qed.

Lemma get_set_other (k k' : string) (v : value) (o : obj) :
  (k =? k') = false -> get k (set k' v o) = get k o.
Proof.
  intros Hk. induction o as [|[k0 v0] o IH]; cbn.
  - now rewrite Hk.
  - destruct (k' =? k0) eqn:E; cbn.
    + apply String.eqb_eq in E. subst k0. now rewrite Hk.
    + destruct (k =? k0); auto.
Qed.

Lemma get_assignMergeValue_same (k : string) (v : value) (o : obj) :
  v <> VUndef -> get k (lodash.assignMergeValue o k v) = v.
Proof.
  intros Hv. unfold lodash.assignMergeValue.
  destruct v; try apply get_set_same. congruence.
Qed.

Lemma get_assignMergeValue_other (k k' : string) (v : value) (o : obj) :
  (k =? k') = false -> get k (lodash.assignMergeValue o k' v) = get k o.
Proof.
  intros Hk. unfold lodash.assignMergeValue.
  destruct v; try (now apply get_set_other).
  destruct (has k' o); [reflexivity|now apply get_set_other].
Qed.

(** With this customizer a merged property is never [undefined]. *)
Lemma mergeProp_defined (objValue srcValue newValue : value) :
  lodash.mergeProp customizer (lodash.baseMergeDeep customizer) objValue srcValue
  = Some newValue ->
  newValue <> VUndef.
Proof.
  unfold lodash.mergeProp, customizer.
  destruct srcValue; cbn; try (intros H; inversion H; discriminate).
  - destruct objValue; cbn;
      try destruct (lodash.isArrayLikeObject kvs);
      try destruct (lodash.mergeElems _ _ _ xs);
      try destruct (lodash.mergeElems _ _ _ xs0);
      cbn; intros H; inversion H; discriminate.
  - destruct objValue; cbn;
      try destruct (lodash.mergeProps _ _ _ kvs);
      try destruct (lodash.mergeProps _ _ _ kvs0);
      cbn; intros H; inversion H; discriminate.
Qed.

(** The keys of the source are merged one by one, each into the property
    of the same name. *)
Lemma mergeProps_get_other (key : string) (source object merged : obj) :
  has key source = false ->
  lodash.mergeProps customizer (lodash.baseMergeDeep customizer) object source
  = Some merged ->
  get key merged = get key object.
Proof.
  revert object. induction source as [|[k s] source IH]; intros object Hk H.
  - cbn in H. now inversion H.
  - cbn in Hk, H. apply orb_false_iff in Hk as [E Hk].
    destruct (lodash.mergeProp customizer (lodash.baseMergeDeep customizer)
                (get k object) s) as [nv|]; [|discriminate].
    rewrite (IH _ Hk H). now apply get_assignMergeValue_other.
Qed.

Lemma mergeProps_get (key : string) (source object merged : obj) :
  NoDup (map fst source) ->
  has key source = true ->
  lodash.mergeProps customizer (lodash.baseMergeDeep customizer) object source
  = Some merged ->
  lodash.mergeProp customizer (lodash.baseMergeDeep customizer)
    (get key object) (get key source)
  = Some (get key merged).
Proof.
  revert object. induction source as [|[k s] source IH];
    intros object Hnd Hk H; [discriminate|].
  cbn in Hnd, Hk, H. inversion Hnd as [|? ? Hfresh Hnd']; subst.
  cbn [get].
  destruct (lodash.mergeProp customizer (lodash.baseMergeDeep customizer)
              (get k object) s) as [nv|] eqn:Hnv; [|discriminate].
  destruct (key =? k) eqn:E.
  - apply String.eqb_eq in E. subst k.
    assert (Hout : has key source = false).
    { destruct (has key source) eqn:Hh; [|reflexivity].
      apply has_In in Hh. contradiction. }
    rewrite (mergeProps_get_other _ _ _ _ Hout H), Hnv. f_equal. symmetry.
    apply get_assignMergeValue_same. exact (mergeProp_defined _ _ _ Hnv).
  - cbn in Hk. specialize (IH _ Hnd' Hk H).
    now rewrite get_assignMergeValue_other in IH.
Qed.

(** C3 (amended): when the source value and the target value under a key
    are both arrays, the source is merged into the target index by index:
    below the length of the source each slot is the merge of the source
    slot into the target slot (a source slot that is not an object
    overwrites it, [null] or [undefined] marking it with [null]), beyond
    that length the target keeps its slots, and at the end the [null] slots
    are filtered out of the result and the remaining ones cloned without
    nulls. *)
Theorem arrays_merge_index_by_index (object src : obj) (key : string)
        (target source : list value) (r : obj) :
  NoDup (map fst object) ->
  NoDup (map fst src) ->
  get key object = VArr target ->
  get key src = VArr source ->
  _customMerge object (VObj src) = Some r ->
  exists merged,
    get key r
    = VArr (map (omittingCloneDeepCustomizer lodash.isNull)
                (lodash.reject lodash.isNull merged))
    /\ List.length merged = Nat.max (List.length target) (List.length source)
    /\ (forall i, i < List.length source ->
          lodash.mergeProp customizer (lodash.baseMergeDeep customizer)
            (nth i target VUndef) (nth i source VUndef)
          = Some (nth i merged VUndef))
    /\ (forall i, i < List.length source ->
          lodash.isObject (nth i source VUndef) = false ->
          nth i merged VUndef
          = if isNil (nth i source VUndef) then VNull else nth i source VUndef)
    /\ (forall i, List.length source <= i ->
          nth i merged VUndef = nth i target VUndef).
Proof.
  intros Hnd Hsrc Hget Hgets H.
  destruct (_customMerge_cleaned _ _ _ Hnd H) as (o' & Hm & ->).
  unfold lodash.mergeWith in Hm.
  assert (Hhas : has key src = true)
    by (apply get_has; rewrite Hgets; discriminate).
  pose proof (mergeProps_get key src object o' Hsrc Hhas Hm) as Hkey.
  rewrite Hget, Hgets in Hkey.
  unfold lodash.mergeProp in Hkey. cbn [lodash.isObject] in Hkey.
  cbn [lodash.baseMergeDeep customizer isNil] in Hkey.
  destruct (lodash.mergeElems customizer (lodash.baseMergeDeep customizer)
              target source) as [merged|] eqn:Hmerged;
    cbn [option_map] in Hkey; [|discriminate].
  inversion Hkey as [Hgetm]; clear Hkey.
  exists merged.
  destruct (mergeElems_pointwise _ _ _ _ _ Hmerged) as (Hlen & Hlt & Hge).
  split; [|split; [exact Hlen|split; [exact Hlt|split; [|exact Hge]]]].
  - rewrite get_map_cleaned, <- Hgetm.
    cbn [lodash.isNull omittingCloneDeepCustomizer].
    now rewrite omitElems_reject.
  - intros i Hi Hobj. specialize (Hlt i Hi).
    rewrite mergeProp_scalar in Hlt by assumption. now inversion Hlt.
Qed.

Lemma arrays_merge_index_by_index_witness :
  NoDup (map fst [("a", VArr [VNum 9; VNum 9; VNum 9; VNum 9]); ("z", VNum 0)])
  /\ NoDup (map fst [("y", VNum 5); ("a", VArr [VNum 1; VNull; VNum 2])])
  /\ get "a" [("a", VArr [VNum 9; VNum 9; VNum 9; VNum 9]); ("z", VNum 0)]
     = VArr [VNum 9; VNum 9; VNum 9; VNum 9]
  /\ get "a" [("y", VNum 5); ("a", VArr [VNum 1; VNull; VNum 2])]
     = VArr [VNum 1; VNull; VNum 2]
  /\ _customMerge [("a", VArr [VNum 9; VNum 9; VNum 9; VNum 9]); ("z", VNum 0)]
                  (VObj [("y", VNum 5); ("a", VArr [VNum 1; VNull; VNum 2])])
     = Some [("a", VArr [VNum 1; VNum 2; VNum 9]); ("z", VNum 0); ("y", VNum 5)]
  /\ exists merged,
       get "a" [("a", VArr [VNum 1; VNum 2; VNum 9]); ("z", VNum 0); ("y", VNum 5)]
       = VArr (map (omittingCloneDeepCustomizer lodash.isNull)
                   (lodash.reject lodash.isNull merged))
       /\ List.length merged = Nat.max 4 3.
Proof.
  assert (Hnd : NoDup (map fst [("a", VArr [VNum 9; VNum 9; VNum 9; VNum 9]);
                                ("z", VNum 0)])).
  { repeat constructor; cbn; intuition discriminate. }
  assert (Hsrc : NoDup (map fst [("y", VNum 5);
                                 ("a", VArr [VNum 1; VNull; VNum 2])])).
  { repeat constructor; cbn; intuition discriminate. }
  split; [exact Hnd|]. split; [exact Hsrc|].
  split; [reflexivity|]. split; [reflexivity|]. split; [reflexivity|].
  destruct (arrays_merge_index_by_index
              [("a", VArr [VNum 9; VNum 9; VNum 9; VNum 9]); ("z", VNum 0)]
              [("y", VNum 5); ("a", VArr [VNum 1; VNull; VNum 2])] "a"
              [VNum 9; VNum 9; VNum 9; VNum 9] [VNum 1; VNull; VNum 2]
              [("a", VArr [VNum 1; VNum 2; VNum 9]); ("z", VNum 0); ("y", VNum 5)]
              Hnd Hsrc eq_refl eq_refl eq_refl) as (merged & Hget & Hlen & _).
  exists merged. split; [exact Hget|exact Hlen].
Defined.

(** The example of the specification: [[1, null, 2]] merged under a key
    that is absent comes out as [[1, 2]]. *)
Example array_null_slot_is_removed :
  _customMerge [] (VObj [("a", VArr [VNum 1; VNull; VNum 2])])
  = Some [("a", VArr [VNum 1; VNum 2])].
Proof. reflexivity. Qed.

(** ** Callbacks and exceptions *)

Lemma calls_app (a b : list event) : calls (a ++ b) = (calls a ++ calls b)%list.
Proof. apply filter_app. Qed.

Lemma calls_triggerListeners (registry : list Listener) (item : Item) :
  calls (ListenerManager.triggerListeners registry item) = [].
Proof.
  unfold ListenerManager.triggerListeners.
  induction registry as [|l registry IH]; cbn; [reflexivity|].
  rewrite calls_app, IH, app_nil_r.
  unfold ListenerManager.triggerListener.
  destruct (ListenerManager.matches l item); [|reflexivity].
  destruct (l_handler l) as [h|]; [|reflexivity].
  now destruct (fn_throws h).
Qed.

Lemma calls_replay (l : Listener) (items : list Item) :
  calls (flat_map (ListenerManager.triggerListener l) items) = [].
Proof.
  induction items as [|it items IH]; cbn; [reflexivity|].
  rewrite calls_app, IH, app_nil_r.
  unfold ListenerManager.triggerListener.
  destruct (ListenerManager.matches l it); [|reflexivity].
  destruct (l_handler l) as [h|]; [|reflexivity].
  now destruct (fn_throws h).
Qed.

(** Only a function item can end in an exception, and only a function item
    adds a call to the trace: the handlers of listeners are called inside
    the trigger boundary. *)
Lemma _processItem_no_function (item : Item) (m : Manager) :
  type item <> FCTN ->
  match _processItem item m with
  | Normal _ m' =>
      exists es, observed m' = (observed m ++ es)%list /\ calls es = []
  | Throw _ _ => False
  | Unmodelled => True
  end.
Proof.
  intros Ht. unfold _processItem.
  destruct (valid item); cbn; [|now exists [ConsoleError (config item)]].
  destruct (type item); cbn; try congruence.
  - merge_cases m item; trivial.
    eexists; split; [reflexivity|apply calls_triggerListeners].
  - unfold bind. destruct (truthy (data item)); cbn.
    + merge_cases m item; trivial.
      eexists; split; [reflexivity|apply calls_triggerListeners].
    + eexists; split; [reflexivity|apply calls_triggerListeners].
  - destruct (l_scope (new_Listener item)).
    + rewrite triggerEach_emit. cbn.
      eexists; split; [reflexivity|apply calls_replay].
    + unfold bind, register.
      destruct (ListenerManager.register _ _); cbn.
      exists []. now rewrite app_nil_r.
    + unfold bind, register.
      destruct (ListenerManager.register _ _) as [[|] r]; cbn.
      * rewrite triggerEach_emit. cbn.
        eexists; split; [reflexivity|apply calls_replay].
      * exists []. now rewrite app_nil_r.
  - exists []. now rewrite app_nil_r.
  - exact I.
Qed.

Lemma new_Item_FCTN (itemConfig : value) (i : option nat) :
  type (new_Item itemConfig i) = FCTN -> exists f, itemConfig = VFun f.
Proof.
  unfold new_Item; cbn. destruct itemConfig; cbn; try discriminate.
  - intros _. now exists f.
  - destruct (has "event" kvs),
             (isPlainObject (get "data" kvs) && negb (has "event" kvs)),
             (has "on" kvs), (has "off" kvs); cbn;
      repeat match goal with |- context [if ?b then _ else _] => destruct b end;
      discriminate.
Qed.

(** What [typeProcessors.fctn] does with a function payload: one call, with
    the queue as receiver and as argument, and nothing else. *)
Lemma _processItem_function (f : fn) (i : option nat) (m : Manager) :
  _processItem (new_Item (VFun f) i) m
  = (if fn_throws f then Throw f else Normal tt)
      {| _dataLayer := _dataLayer m;
         _state := _state m;
         _previousStateCopy := _previousStateCopy m;
         _listenerManager := _listenerManager m;
         observed := (observed m ++ [Call f (_dataLayer m) (_dataLayer m)])%list |}.
Proof.
  unfold _processItem, new_Item; cbn. unfold bind, emit; cbn.
  now destruct (fn_throws f).
Qed.

(** The calls a loop over the arguments adds to the trace: the function
    payloads, each once, in the order passed. *)
Lemma push_forEach_calls (args : list value) (m m' : Manager)
      (filtered : list (option value)) :
  push_forEach args m = Normal filtered m' ->
  exists es,
    observed m' = (observed m ++ es)%list
    /\ calls es
       = map (fun f => Call f (_dataLayer m) (_dataLayer m)) (functions args).
Proof.
  revert m m' filtered. induction args as [|c args IH]; intros m m' fl H.
  - cbn in H. inversion H; subst. exists []. now rewrite app_nil_r.
  - cbn [push_forEach] in H.
    apply bind_Normal in H as (d & m1 & Hd & H).
    apply bind_Normal in H as (fl' & m2 & Hfl & H).
    cbn in H. inversion H; subst; clear H.
    destruct (IH _ _ _ Hfl) as (es2 & Hobs2 & Hcalls2).
    assert (Hstep : exists es1,
               observed m1 = (observed m ++ es1)%list
               /\ _dataLayer m1 = _dataLayer m
               /\ calls es1
                  = match c with
                    | VFun f => [Call f (_dataLayer m) (_dataLayer m)]
                    | _ => []
                    end).
    { destruct (type (new_Item c None)) eqn:Ht.
      - apply bind_Normal in Hd as (u & m3 & Hp & Hd). inversion Hd; subst.
        pose proof (_processItem_no_function (new_Item c None) m) as Hn.
        pose proof (_processItem_dataLayer (new_Item c None) m) as Hq.
        rewrite Hp in Hn, Hq. cbn in Hq.
        destruct Hn as (es & Hes & Hc); [congruence|].
        exists es. repeat split; auto.
        destruct c; auto. discriminate.
      - destruct (new_Item_FCTN _ _ Ht) as (f & ->).
        apply bind_Normal in Hd as (u & m3 & Hp & Hd). inversion Hd; subst.
        rewrite _processItem_function in Hp.
        destruct (fn_throws f); inversion Hp; subst; cbn.
        eexists; repeat split; reflexivity.
      - apply bind_Normal in Hd as (u & m3 & Hp & Hd). inversion Hd; subst.
        pose proof (_processItem_no_function (new_Item c None) m) as Hn.
        pose proof (_processItem_dataLayer (new_Item c None) m) as Hq.
        rewrite Hp in Hn, Hq. cbn in Hq.
        destruct Hn as (es & Hes & Hc); [congruence|].
        exists es. repeat split; auto.
        destruct c; auto. discriminate.
      - inversion Hd; subst. exists []. rewrite app_nil_r.
        repeat split; auto. destruct c; auto. discriminate.
      - inversion Hd; subst. exists []. rewrite app_nil_r.
        repeat split; auto. destruct c; auto. discriminate.
      - inversion Hd; subst. exists []. rewrite app_nil_r.
        repeat split; auto. destruct c; auto. discriminate. }
    destruct Hstep as (es1 & Hobs1 & Hq1 & Hcalls1).
    exists (es1 ++ es2)%list. split.
    + now rewrite Hobs2, Hobs1, app_assoc.
    + rewrite calls_app, Hcalls1, Hcalls2, Hq1.
      destruct c; reflexivity.
Qed.




(** ** The queue after [push] *)

Lemma push_Throw (args : list value) (m m' : Manager) (f : fn) :
  push args m = Throw f m' ->
  push_forEach args m = Throw f m'.
Proof.
  unfold push, bind.
  destruct (push_forEach args m) as [fl m1|g m1|];
    [|intros H; inversion H; reflexivity|discriminate].
  unfold Array_push_apply, ret.
  destruct (truthy (argument (hd None fl))); discriminate.
Qed.


(** A first argument that is dropped keeps valid later arguments out of
    the queue although they have been dispatched. *)
Example push_function_then_data :
  push [VFun returning; sample_ab] (fresh [])
  = Normal VUndef
      {| _dataLayer := [];
         _state := [("a", VObj [("b", VNum 1); ("c", VNum 2)])];
         _previousStateCopy := [];
         _listenerManager := [];
         observed := [Call returning [] []] |}.
Proof. reflexivity. Qed.

(** C4: the queue does not gain exactly the retained arguments.  After
    [push({data: ...}, f)] the queue holds the data item followed by an
    [undefined] entry where the function was; after [push(f, {data: ...})]
    the data item has been merged into the state and the call returns
    [undefined] with nothing appended; and a listener item that is pushed
    is dropped without being dispatched: nothing is registered. *)
Theorem push_leaves_undefined_or_nothing :
  push [sample_ab; VFun returning] (fresh [])
  = Normal (VNum 2)
      {| _dataLayer := [sample_ab; VUndef];
         _state := [("a", VObj [("b", VNum 1); ("c", VNum 2)])];
         _previousStateCopy := [];
         _listenerManager := [];
         observed := [Call returning [] []] |}
  /\ push [VFun returning; sample_ab] (fresh [])
     = Normal VUndef
         {| _dataLayer := [];
            _state := [("a", VObj [("b", VNum 1); ("c", VNum 2)])];
            _previousStateCopy := [];
            _listenerManager := [];
            observed := [Call returning [] []] |}
  /\ push [sample_on_past] (fresh [sample_ab]) = Normal VUndef (fresh [sample_ab]).
Proof. repeat split; reflexivity. Qed.

(** C6: an invalid item is reported and removed when it is found in the
    queue at construction, but not when it is appended through [push]:
    [push("foo")] logs nothing, and [push({data: ...}, "foo")] leaves an
    [undefined] entry in the queue in its place. *)
Theorem invalid_item_pushed_is_not_reported :
  _initialize (VArr [VStr "foo"])
  = Normal tt
      {| _dataLayer := [];
         _state := [];
         _previousStateCopy := [];
         _listenerManager := [];
         observed := [ConsoleError (VStr "foo")] |}
  /\ push [VStr "foo"] (fresh []) = Normal VUndef (fresh [])
  /\ push [sample_ab; VStr "foo"] (fresh [])
     = Normal (VNum 2)
         {| _dataLayer := [sample_ab; VUndef];
            _state := [("a", VObj [("b", VNum 1); ("c", VNum 2)])];
            _previousStateCopy := [];
            _listenerManager := [];
            observed := [] |}.
Proof. repeat split; reflexivity. Qed.

(** ** Exceptions *)

(** C7 (the claim as stated fails): the exception of a function payload is
    not caught.  [push(f, {data: ...})] with an [f] that throws is left by
    that exception, and the data item after it is never processed: the
    state is still empty. *)
Lemma function_exception_propagates :
  push [VFun throwing; sample_ab] (fresh [])
  = Throw throwing
      {| _dataLayer := [];
         _state := [];
         _previousStateCopy := [];
         _listenerManager := [];
         observed := [Call throwing [] []] |}.
Proof. reflexivity. Qed.

Lemma quiet_function (f : fn) (i : option nat) (m : Manager) :
  quiet (VFun f) ->
  _processItem (new_Item (VFun f) i) m
  = Normal tt
      {| _dataLayer := _dataLayer m;
         _state := _state m;
         _previousStateCopy := _previousStateCopy m;
         _listenerManager := _listenerManager m;
         observed := (observed m ++ [Call f (_dataLayer m) (_dataLayer m)])%list |}.
Proof.
  intros Hq. cbn in Hq. rewrite _processItem_function. now rewrite Hq.
Qed.

(** Without a throwing function among the arguments no exception leaves
    the loop over them. *)
Lemma push_forEach_quiet (args : list value) (m : Manager) :
  Forall quiet args ->
  match push_forEach args m with Throw _ _ => False | _ => True end.
Proof.
  revert m. induction args as [|c args IH]; intros m Hall; [exact I|].
  inversion Hall as [|? ? Hc Hrest]; subst.
  cbn [push_forEach].
  assert (Hstep : forall (k : M bool),
             match k m with Throw _ _ => False | _ => True end ->
             match (deleted <- k ;;
                    filtered <- push_forEach args ;;
                    ret ((if deleted then None else Some c) :: filtered)) m
             with Throw _ _ => False | _ => True end).
  { intros k Hk. unfold bind at 1.
    destruct (k m) as [d m1|f m1|]; trivial.
    unfold bind. specialize (IH m1 Hrest).
    destruct (push_forEach args m1); trivial. }
  assert (Hproc : forall b : bool,
             type (new_Item c None) <> FCTN ->
             match (_processItem (new_Item c None) ;; ret b) m
             with Throw _ _ => False | _ => True end).
  { intros b Ht.
    pose proof (_processItem_no_function (new_Item c None) m Ht) as Hn.
    unfold bind. destruct (_processItem (new_Item c None) m); cbn in *; auto. }
  destruct (type (new_Item c None)) eqn:Ht; apply Hstep;
    try (apply Hproc; congruence); try exact I.
  destruct (new_Item_FCTN _ _ Ht) as (f & ->).
  unfold bind. now rewrite (quiet_function f None m Hc).
Qed.

(** A retained item triggers every registered listener. *)
Lemma _processItem_retained (c : value) (m m' : Manager) :
  retained c = true ->
  _processItem (new_Item c None) m = Normal tt m' ->
  observed m'
  = (observed m
     ++ ListenerManager.triggerListeners (_listenerManager m) (new_Item c None))%list.
Proof.
  unfold retained, _processItem. rewrite new_Item_valid.
  destruct (type (new_Item c None)); try discriminate; intros _; cbn.
  - unfold bind, _updateState.
    destruct (_customMerge (_state m) (data (new_Item c None)));
      [|discriminate].
    cbn. intros H. now inversion H.
  - unfold bind. destruct (truthy (data (new_Item c None))).
    + unfold _updateState.
      destruct (_customMerge (_state m) (data (new_Item c None)));
        [|discriminate].
      cbn. intros H. now inversion H.
    + cbn. intros H. now inversion H.
Qed.

Lemma push_forEach_cons (c : value) (args : list value) (m m' : Manager)
      (filtered : list (option value)) :
  push_forEach (c :: args) m = Normal filtered m' ->
  exists slot rest m1,
    push_forEach [c] m = Normal [slot] m1
    /\ push_forEach args m1 = Normal rest m'.
Proof.
  intros H. cbn [push_forEach] in *.
  apply bind_Normal in H as (d & m1 & Hd & H).
  apply bind_Normal in H as (fl' & m2 & Hfl & H).
  cbn in H. inversion H; subst; clear H.
  exists (if d then None else Some c), fl', m1.
  split; [|exact Hfl]. unfold bind at 1. rewrite Hd. reflexivity.
Qed.

Lemma push_forEach_triggers (args : list value) (m m' : Manager)
      (filtered : list (option value)) (c : value) (e : event) :
  push_forEach args m = Normal filtered m' ->
  In c args -> retained c = true ->
  In e (ListenerManager.triggerListeners (_listenerManager m) (new_Item c None)) ->
  In e (observed m').
Proof.
  revert m m' filtered. induction args as [|c0 args IH];
    intros m m' fl H Hin Hc He; [destruct Hin|].
  destruct (push_forEach_cons _ _ _ _ _ H) as (slot & rest & m1 & H1 & H2).
  pose proof (push_forEach_frame [c0] m) as Hframe.
  rewrite H1 in Hframe. cbn in Hframe. destruct Hframe as [_ Hreg].
  destruct Hin as [->|Hin].
  - destruct (push_forEach_calls _ _ _ _ H2) as (es & Hobs & _).
    rewrite Hobs. apply in_or_app. left.
    cbn [push_forEach] in H1.
    apply bind_Normal in H1 as (d & m2 & Hd & H1).
    cbn in H1. inversion H1; subst; clear H1.
    assert (Hp : _processItem (new_Item c None) m = Normal tt m1).
    { unfold retained in Hc.
      destruct (type (new_Item c None)); try discriminate;
        apply bind_Normal in Hd as ([] & m3 & Hp & Hd);
        cbn in Hd; inversion Hd; subst; exact Hp. }
    rewrite (_processItem_retained _ _ _ Hc Hp).
    apply in_or_app. now right.
  - apply (IH m1 m' rest H2 Hin Hc). now rewrite Hreg.
Qed.

(** C7 (amended): an exception thrown by the handler of a listener is
    caught at the trigger boundary: whatever the handlers of the registered
    listeners do, a [push] whose function payloads do not throw is not left
    by an exception, and when it returns, every argument classified as data
    or event has had the handler of every matching registered listener
    invoked.  (The exception of a function payload is not caught.) *)
Theorem listener_exception_does_not_abort (args : list value) (m : Manager) :
  Forall quiet args ->
  match push args m with
  | Throw _ _ => False
  | Unmodelled => True
  | Normal _ m' =>
      forall c l h,
        In c args -> retained c = true ->
        In l (_listenerManager m) ->
        ListenerManager.matches l (new_Item c None) = true ->
        l_handler l = Some h ->
        In (Handler l (new_Item c None)) (observed m')
  end.
Proof.
  intros Hall.
  destruct (push args m) as [r m'|f m'|] eqn:H; [| |exact I].
  - intros c l h Hin Hc Hl Hmatch Hh.
    destruct (push_Normal _ _ _ _ H) as (m1 & Hrun & _ & _ & Hend).
    assert (Hobs : observed m' = observed m1)
      by (destruct (retained (hd VUndef args)); destruct Hend as [_ ->];
          reflexivity).
    rewrite Hobs.
    apply (push_forEach_triggers _ _ _ _ c _ Hrun Hin Hc).
    unfold ListenerManager.triggerListeners. apply in_flat_map.
    exists l. split; [exact Hl|].
    unfold ListenerManager.triggerListener. rewrite Hmatch, Hh.
    destruct (fn_throws h); now left.
  - apply push_Throw in H.
    pose proof (push_forEach_quiet args m Hall) as Hq.
    now rewrite H in Hq.
Qed.

Lemma listener_exception_does_not_abort_witness :
  Forall quiet [sample_ab; sample_delete_b]
  /\ (exists m',
         push [sample_ab; sample_delete_b] sample_listening = Normal (VNum 2) m'
         /\ _state m' = [("a", VObj [("c", VNum 2)])]
         /\ In (HandlerError sample_throwing_listener (new_Item sample_ab None))
               (observed m')
         /\ In (Handler sample_throwing_listener (new_Item sample_delete_b None))
               (observed m'))
  /\ match push [sample_ab; sample_delete_b] sample_listening with
     | Throw _ _ => False
     | Unmodelled => True
     | Normal _ m' =>
         forall c l h,
           In c [sample_ab; sample_delete_b] -> retained c = true ->
           In l (_listenerManager sample_listening) ->
           ListenerManager.matches l (new_Item c None) = true ->
           l_handler l = Some h ->
           In (Handler l (new_Item c None)) (observed m')
     end.
Proof.
  assert (H : Forall quiet [sample_ab; sample_delete_b])
    by (repeat constructor).
  split; [exact H|]. split.
  - eexists. split; [vm_compute; reflexivity|]. split; [reflexivity|].
    split; vm_compute; auto 6.
  - exact (listener_exception_does_not_abort
             [sample_ab; sample_delete_b] sample_listening H).
Defined.

(** ** Construction *)

(** C9: no readiness notification is fired at construction.  Whatever
    event name a listener found in the queue subscribes to, [_initialize]
    registers it and returns with an empty trace: after [_processItems] the
    constructor does nothing more, and no handler has been called. *)
Theorem initialize_fires_no_ready_event (e : string) (h : fn) :
  _initialize (VArr []) = Normal tt (fresh [])
  /\ _initialize (VArr [listener_on e h])
     = Normal tt
         {| _dataLayer := [];
            _state := [];
            _previousStateCopy := [];
            _listenerManager :=
              [{| l_event := e; l_path := None; l_scope := ALL;
                  l_handler := Some h |}];
            observed := [] |}.
Proof. split; reflexivity. Qed.

(** ** Listeners of the past *)

Lemma flat_map_map {A B C} (f : B -> list C) (g : A -> B) (xs : list A) :
  flat_map f (map g xs) = flat_map (fun x => f (g x)) xs.
Proof.
  induction xs as [|x xs IH]; cbn; [reflexivity|]. now rewrite IH.
Qed.

(** [_getBefore] for an item that stands in the queue at its index. *)
Lemma _getBefore_at (itemConfig c : value) (i : nat) (m : Manager) :
  nth_error (_dataLayer m) i = Some c ->
  _getBefore (new_Item itemConfig (Some i)) m
  = map (fun itemConfig => new_Item itemConfig None) (firstn i (_dataLayer m)).
Proof.
  intros Hnth. unfold _getBefore.
  change (index (new_Item itemConfig (Some i))) with (Some i).
  assert (Hlt : i < List.length (_dataLayer m))
    by (apply nth_error_Some; congruence).
  replace (Z.of_nat (List.length (_dataLayer m)) =? 0)%Z with false
    by (symmetry; apply Z.eqb_neq; lia).
  replace (Z.of_nat i >? Z.of_nat (List.length (_dataLayer m)) - 1)%Z with false
    by (symmetry; rewrite Z.gtb_ltb; apply Z.ltb_ge; lia).
  reflexivity.
Qed.

(** C5: a listener-on command of scope past, processed at index [i] of the
    queue, is replayed the entries of the queue before index [i], in their
    order, each classified anew and triggered against this listener alone;
    nothing else happens: the registry is as it was, so the listener is
    never registered and no later command reaches it. *)
Theorem past_listener_replays_entries_before
        (m : Manager) (itemConfig : value) (i : nat) :
  type (new_Item itemConfig (Some i)) = LISTENER_ON ->
  l_scope (new_Listener (new_Item itemConfig (Some i))) = PAST ->
  nth_error (_dataLayer m) i = Some itemConfig ->
  _processItem (new_Item itemConfig (Some i)) m
  = Normal tt
      {| _dataLayer := _dataLayer m;
         _state := _state m;
         _previousStateCopy := _previousStateCopy m;
         _listenerManager := _listenerManager m;
         observed :=
           (observed m
            ++ flat_map
                 (fun c =>
                    ListenerManager.triggerListener
                      (new_Listener (new_Item itemConfig (Some i)))
                      (new_Item c None))
                 (firstn i (_dataLayer m)))%list |}.
Proof.
  intros Ht Hscope Hnth. unfold _processItem.
  rewrite new_Item_valid, Ht. cbn [negb]. cbv iota.
  rewrite Hscope. rewrite triggerEach_emit.
  rewrite (_getBefore_at _ _ _ _ Hnth), flat_map_map.
  reflexivity.
Qed.

Lemma past_listener_replays_entries_before_witness :
  type (new_Item sample_on_past (Some 1)) = LISTENER_ON
  /\ l_scope (new_Listener (new_Item sample_on_past (Some 1))) = PAST
  /\ nth_error [sample_ab; sample_on_past; sample_delete_b] 1
     = Some sample_on_past
  /\ _processItem (new_Item sample_on_past (Some 1))
                  (fresh [sample_ab; sample_on_past; sample_delete_b])
     = Normal tt
         {| _dataLayer := [sample_ab; sample_on_past; sample_delete_b];
            _state := [];
            _previousStateCopy := [];
            _listenerManager := [];
            observed :=
              [Handler (new_Listener (new_Item sample_on_past (Some 1)))
                       (new_Item sample_ab None)] |}.
Proof.
  split; [reflexivity|]. split; [reflexivity|]. split; [reflexivity|].
  exact (past_listener_replays_entries_before
           (fresh [sample_ab; sample_on_past; sample_delete_b])
           sample_on_past 1 eq_refl eq_refl eq_refl).
Defined.

(** The registry never holds a listener of scope past: [register] is only
    reached in the other two scopes. *)
Lemma _processItem_noPast (item : Item) (m : Manager) :
  noPast (_listenerManager m) ->
  leaves (_processItem item m) (fun m' => noPast (_listenerManager m')).
Proof.
  intros Hinv. unfold _processItem.
  destruct (valid item); cbn; [|exact Hinv].
  destruct (type item); cbn.
  - merge_cases m item; trivial.
  - destruct (config item); cbn; trivial.
    unfold bind; cbn. destruct (fn_throws f); cbn; exact Hinv.
  - unfold bind. destruct (truthy (data item)); cbn; [|exact Hinv].
    merge_cases m item; trivial.
  - destruct (l_scope (new_Listener item)) eqn:Hscope.
    + rewrite triggerEach_emit. exact Hinv.
    + unfold bind, register, ListenerManager.register.
      destruct (existsb _ _); cbn; [exact Hinv|].
      apply Forall_app. split; [exact Hinv|].
      constructor; [congruence|constructor].
    + unfold bind, register, ListenerManager.register.
      destruct (existsb _ _); cbn; [exact Hinv|].
      rewrite triggerEach_emit. cbn.
      apply Forall_app. split; [exact Hinv|].
      constructor; [congruence|constructor].
  - unfold noPast, ListenerManager.unregister in *. cbn.
    rewrite Forall_forall in *. intros l Hl.
    apply filter_In in Hl as [Hl _]. now apply Hinv.
  - exact I.
Qed.

Lemma scan_noPast (rest kept : list value) (m : Manager) :
  noPast (_listenerManager m) ->
  leaves (scan kept rest m) (fun m' => noPast (_listenerManager m')).
Proof.
  revert kept m. induction rest as [|c rest IH]; intros kept m Hinv;
    [exact Hinv|].
  cbn [scan]. cbv zeta. unfold bind.
  pose proof (_processItem_noPast (new_Item c (Some (List.length kept))) m Hinv)
    as Hstep.
  destruct (_processItem (new_Item c (Some (List.length kept))) m)
    as [u m1|f m1|]; cbn in Hstep; trivial.
  destruct (removed (new_Item c (Some (List.length kept)))); apply IH;
    exact Hstep.
Qed.

(** After construction, and after any [push], no listener of scope past is
    registered, so none is ever triggered by a later command. *)
Lemma _initialize_noPast (dataLayer : value) :
  leaves (_initialize dataLayer) (fun m' => noPast (_listenerManager m')).
Proof.
  unfold _initialize. rewrite _processItems_scan.
  apply scan_noPast. constructor.
Qed.

Lemma triggerListeners_noPast (registry : list Listener) (item it : Item)
      (l : Listener) :
  noPast registry ->
  In (Handler l it) (ListenerManager.triggerListeners registry item) ->
  l_scope l <> PAST.
Proof.
  intros Hinv Hin. unfold ListenerManager.triggerListeners in Hin.
  apply in_flat_map in Hin as (l' & Hl' & Hin).
  unfold ListenerManager.triggerListener in Hin.
  destruct (ListenerManager.matches l' item); [|destruct Hin].
  destruct (l_handler l') as [h|]; [|destruct Hin].
  assert (Heq : l = l').
  { destruct (fn_throws h); cbn in Hin;
      repeat (destruct Hin as [Hin|Hin]; [now inversion Hin|]);
      destruct Hin. }
  subst l'. unfold noPast in Hinv. rewrite Forall_forall in Hinv.
  now apply Hinv.
Qed.

(** ** The state after any [push] *)

Lemma new_Item_DATA (itemConfig : value) (i : option nat) :
  type (new_Item itemConfig i) = DATA ->
  truthy (data (new_Item itemConfig i)) = true.
Proof.
  unfold new_Item; cbn. destruct itemConfig; cbn; try discriminate.
  destruct (has "event" kvs), (has "on" kvs), (has "off" kvs);
    destruct (get "data" kvs) eqn:Hd; cbn;
    repeat match goal with |- context [if ?b then _ else _] => destruct b end;
    try discriminate; intros _; reflexivity.
Qed.

(** Whatever the mix of arguments, the state a [push] leaves is the fold of
    the merge over the payloads of its data items and of its event items
    that carry data; listener, function and invalid arguments merge
    nothing.  The loop reaches an unmodelled point only where a merge
    does. *)
Lemma push_forEach_state (args : list value) (m : Manager) :
  match push_forEach args m with
  | Normal _ m' => foldMerge (_state m) (mergedPayloads args) = Some (_state m')
  | Throw _ _ => True
  | Unmodelled => foldMerge (_state m) (mergedPayloads args) = None
  end.
Proof.
  revert m. induction args as [|c args IH]; intros m; [reflexivity|].
  cbn [push_forEach]. unfold mergedPayloads. cbn [flat_map].
  fold (mergedPayloads args).
  assert (Hkeep : forall (k : M bool) m1 d,
             k m = Normal d m1 -> _state m1 = _state m ->
             retained c && truthy (payload c) = false ->
             match (deleted <- k ;;
                    filtered <- push_forEach args ;;
                    ret ((if deleted then None else Some c) :: filtered)) m
             with
             | Normal _ m' =>
                 foldMerge (_state m)
                   ((if retained c && truthy (payload c) then [payload c] else [])
                    ++ mergedPayloads args) = Some (_state m')
             | Throw _ _ => True
             | Unmodelled =>
                 foldMerge (_state m)
                   ((if retained c && truthy (payload c) then [payload c] else [])
                    ++ mergedPayloads args) = None
             end).
  { intros k m1 d Hk Hs Hc. unfold bind at 1. rewrite Hk, Hc. cbn [app].
    unfold bind. specialize (IH m1). rewrite Hs in IH.
    destruct (push_forEach args m1); cbn; exact IH. }
  assert (Hmerge : forall b : bool,
             valid (new_Item c None) = true ->
             retained c && truthy (payload c) = true ->
             _processItem (new_Item c None) m
             = (_updateState (new_Item c None) ;;
                triggerListeners (new_Item c None)) m ->
             match (deleted <- (_processItem (new_Item c None) ;; ret b) ;;
                    filtered <- push_forEach args ;;
                    ret ((if deleted then None else Some c) :: filtered)) m
             with
             | Normal _ m' =>
                 foldMerge (_state m)
                   ((if retained c && truthy (payload c) then [payload c] else [])
                    ++ mergedPayloads args) = Some (_state m')
             | Throw _ _ => True
             | Unmodelled =>
                 foldMerge (_state m)
                   ((if retained c && truthy (payload c) then [payload c] else [])
                    ++ mergedPayloads args) = None
             end).
  { intros b Hv Hc Hp. rewrite Hc. cbn [app foldMerge].
    unfold bind at 1 2. rewrite Hp. unfold bind at 1, _updateState.
    change (data (new_Item c None)) with (payload c).
    destruct (_customMerge (_state m) (payload c)) as [s1|]; [|reflexivity].
    cbn. unfold bind.
    match goal with |- context [push_forEach args ?m1] =>
      specialize (IH m1); destruct (push_forEach args m1) end; cbn in *;
      exact IH. }
  pose proof (new_Item_valid c None) as Hv.
  destruct (type (new_Item c None)) eqn:Ht.
  - apply Hmerge; [exact Hv| |].
    + unfold retained. rewrite Ht. cbn. now apply new_Item_DATA.
    + unfold _processItem. now rewrite Hv, Ht.
  - destruct (new_Item_FCTN _ _ Ht) as (f & ->).
    destruct (fn_throws f) eqn:Hf.
    + unfold bind at 1 2. rewrite _processItem_function, Hf. exact I.
    + eapply Hkeep.
      * unfold bind. rewrite _processItem_function, Hf. reflexivity.
      * reflexivity.
      * reflexivity.
  - destruct (truthy (payload c)) eqn:Hd.
    + apply Hmerge; [exact Hv| |].
      * unfold retained. now rewrite Ht.
      * unfold _processItem. rewrite Hv, Ht. cbn.
        change (data (new_Item c None)) with (payload c). now rewrite Hd.
    + eapply Hkeep.
      * unfold bind, _processItem. rewrite Hv, Ht. cbn.
        change (data (new_Item c None)) with (payload c). rewrite Hd.
        cbn. reflexivity.
      * reflexivity.
      * apply andb_false_r.
  - eapply Hkeep; [reflexivity|reflexivity|unfold retained; now rewrite Ht].
  - eapply Hkeep; [reflexivity|reflexivity|unfold retained; now rewrite Ht].
  - eapply Hkeep; [reflexivity|reflexivity|unfold retained; now rewrite Ht].
Qed.

Lemma push_state (args : list value) (m : Manager) :
  match push args m with
  | Normal _ m' => foldMerge (_state m) (mergedPayloads args) = Some (_state m')
  | Throw _ _ => True
  | Unmodelled => foldMerge (_state m) (mergedPayloads args) = None
  end.
Proof.
  pose proof (push_forEach_state args m) as H. unfold push, bind.
  destruct (push_forEach args m) as [fl m1|f m1|]; trivial.
  destruct (truthy (argument (hd None fl))); cbn; exact H.
Qed.

(** ** Every notification has a queue entry behind it *)

Lemma triggerListener_Handler (l l' : Listener) (it it' : Item) :
  In (Handler l it) (ListenerManager.triggerListener l' it') ->
  l = l' /\ it = it'.
Proof.
  unfold ListenerManager.triggerListener.
  destruct (ListenerManager.matches l' it'); [|intros []].
  destruct (l_handler l') as [h|]; [|intros []].
  destruct (fn_throws h); cbn; intros H;
    repeat (destruct H as [H|H]; [inversion H; auto|]); destruct H.
Qed.

Lemma _getBefore_In (item it : Item) (m : Manager) :
  In it (_getBefore item m) ->
  exists c, In c (_dataLayer m) /\ it = new_Item c None.
Proof.
  unfold _getBefore.
  destruct (negb _); [|intros []].
  intros H. apply in_map_iff in H as (c & <- & Hc).
  exists c. split; [|reflexivity].
  destruct (index item) as [i|]; [|exact Hc].
  rewrite <- (firstn_skipn i (_dataLayer m)). apply in_or_app. now left.
Qed.

(** A handler is only ever invoked for the item being processed or, in a
    replay, for an entry of the queue classified anew. *)
Lemma _processItem_handlers (item : Item) (m : Manager) :
  leaves (_processItem item m)
         (fun m' =>
            forall l it,
              In (Handler l it) (observed m') ->
              In (Handler l it) (observed m)
              \/ it = item
              \/ exists c, In c (_dataLayer m) /\ it = new_Item c None).
Proof.
  assert (Htrig : forall l it,
             In (Handler l it)
                (observed m ++ ListenerManager.triggerListeners (_listenerManager m) item) ->
             In (Handler l it) (observed m)
             \/ it = item
             \/ exists c, In c (_dataLayer m) /\ it = new_Item c None).
  { intros l it H. apply in_app_or in H as [H|H]; [now left|].
    right. left. unfold ListenerManager.triggerListeners in H.
    apply in_flat_map in H as (l' & _ & H).
    now apply triggerListener_Handler in H. }
  assert (Hreplay : forall lst l it,
             In (Handler l it)
                (observed m
                 ++ flat_map (ListenerManager.triggerListener lst)
                             (_getBefore item m)) ->
             In (Handler l it) (observed m)
             \/ it = item
             \/ exists c, In c (_dataLayer m) /\ it = new_Item c None).
  { intros lst l it H. apply in_app_or in H as [H|H]; [now left|].
    right. right. apply in_flat_map in H as (it' & Hit' & H).
    apply triggerListener_Handler in H as [_ ->].
    now apply _getBefore_In in Hit'. }
  unfold _processItem.
  destruct (valid item); cbn.
  2:{ intros l it H. apply in_app_or in H as [H|[H|[]]]; [now left|discriminate]. }
  destruct (type item); cbn.
  - merge_cases m item; trivial.
  - destruct (config item); cbn; trivial.
    unfold bind; cbn.
    destruct (fn_throws f); cbn; intros l it H;
      apply in_app_or in H as [H|[H|[]]]; try discriminate; now left.
  - unfold bind. destruct (truthy (data item)); cbn; [|exact Htrig].
    merge_cases m item; trivial.
  - destruct (l_scope (new_Listener item)).
    + rewrite triggerEach_emit. cbn. apply Hreplay.
    + unfold bind, register.
      destruct (ListenerManager.register _ _); cbn. auto.
    + unfold bind, register.
      destruct (ListenerManager.register _ _) as [[|] r]; cbn; [|auto].
      rewrite triggerEach_emit. cbn. apply Hreplay.
  - auto.
  - exact I.
Qed.

Lemma scan_handlers (rest kept : list value) (m : Manager) :
  _dataLayer m = (kept ++ rest)%list ->
  leaves (scan kept rest m)
         (fun m' =>
            forall l it,
              In (Handler l it) (observed m') ->
              In (Handler l it) (observed m) \/ In (config it) (kept ++ rest)).
Proof.
  revert kept m. induction rest as [|c rest IH]; intros kept m Hq;
    [cbn; auto|].
  cbn [scan]. cbv zeta. unfold bind.
  set (item := new_Item c (Some (List.length kept))).
  pose proof (_processItem_handlers item m) as Hstep.
  pose proof (_processItem_dataLayer item m) as Hframe.
  destruct (_processItem item m) as [u m1|f m1|]; cbn in Hstep, Hframe.
  - assert (Hold : forall l it,
               In (Handler l it) (observed m1) ->
               In (Handler l it) (observed m)
               \/ In (config it) (kept ++ c :: rest)).
    { intros l it H. destruct (Hstep l it H) as [H1|[->|(c' & Hc' & ->)]].
      - now left.
      - right. apply in_or_app. right. now left.
      - right. rewrite <- Hq. exact Hc'. }
    destruct (removed item).
    + specialize (IH kept (set_dataLayer (kept ++ rest)%list m1) eq_refl).
      eapply leaves_weaken; [exact IH|]. cbn. intros m' H l it Hin.
      destruct (H l it Hin) as [H1|H1]; [now apply Hold|].
      right. apply in_app_or in H1 as [H1|H1]; apply in_or_app; auto.
      right. now right.
    + assert (Hq1 : _dataLayer m1 = ((kept ++ [c]) ++ rest)%list)
        by (now rewrite Hframe, Hq, <- app_assoc).
      specialize (IH (kept ++ [c])%list m1 Hq1).
      eapply leaves_weaken; [exact IH|]. cbn. intros m' H l it Hin.
      destruct (H l it Hin) as [H1|H1]; [now apply Hold|].
      right. now rewrite <- app_assoc in H1.
  - intros l it H. destruct (Hstep l it H) as [H1|[->|(c' & Hc' & ->)]].
    + now left.
    + right. apply in_or_app. right. now left.
    + right. rewrite <- Hq. exact Hc'.
  - exact I.
Qed.

(** Every handler invoked during construction is invoked for an item
    classified from an entry of the queue: the constructor makes no item
    of its own, for a readiness event or any other. *)
Lemma _initialize_handlers (queue : list value) :
  leaves (_initialize (VArr queue))
         (fun m' =>
            forall l it, In (Handler l it) (observed m') -> In (config it) queue).
Proof.
  unfold _initialize. rewrite _processItems_scan.
  eapply leaves_weaken; [exact (scan_handlers queue [] (fresh queue) eq_refl)|].
  cbn. intros m' H l it Hin. destruct (H l it Hin) as [[]|H1]; exact H1.
Qed.

(** * Further properties of the manager *)

(** ** One step of dispatch *)


Lemma retained_valid (c : value) (idx : option nat) :
  retained c = true -> valid (new_Item c idx) = true.
Proof.
  unfold retained. rewrite new_Item_valid.
  change (type (new_Item c idx)) with (type (new_Item c None)).
  now destruct (type (new_Item c None)).
Qed.












(** What one item does to the state: the merge of its payload when it is a
    data item or an event item with data, with the copy of the state taken
    just before, nothing otherwise; and the only exception is that of a
    throwing function payload, which leaves the state as it was. *)
Lemma _processItem_stepState (c : value) (idx : option nat) (m : Manager) :
  match _processItem (new_Item c idx) m with
  | Normal _ m' =>
      (foldMerge (_state m) (mergedPayloads [c]) = Some (_state m')
       /\ foldPrevious (_state m) (_previousStateCopy m) (mergedPayloads [c])
          = Some (_previousStateCopy m'))
      /\ quiet c
  | Throw f m' =>
      c = VFun f /\ fn_throws f = true /\ _state m' = _state m
      /\ _previousStateCopy m' = _previousStateCopy m
  | Unmodelled => foldMerge (_state m) (mergedPayloads [c]) = None
  end.
Proof.
  unfold mergedPayloads. cbn [flat_map]. rewrite app_nil_r.
  destruct (type (new_Item c idx)) eqn:Ht.
  2:{ destruct (new_Item_FCTN _ _ Ht) as (f & ->).
      rewrite _processItem_function.
      destruct (fn_throws f) eqn:Hf; cbn; auto. }
  all: pose proof (new_Item_valid c idx) as Hv; rewrite Ht in Hv;
    assert (Hq : quiet c)
      by (destruct c; try exact I; cbn in Ht; discriminate);
    unfold _processItem, retained;
    change (type (new_Item c None)) with (type (new_Item c idx));
    rewrite Hv, Ht; cbn [negb andb]; cbv iota.
  - pose proof (new_Item_DATA c idx Ht) as Hd.
    change (payload c) with (data (new_Item c idx)). rewrite Hd.
    cbn [foldMerge foldPrevious]. unfold bind, _updateState.
    rewrite cloneDeepObject_id.
    destruct (_customMerge (_state m) (data (new_Item c idx))); cbn; auto.
  - change (payload c) with (data (new_Item c idx)).
    unfold bind. destruct (truthy (data (new_Item c idx))).
    + unfold _updateState. cbn [foldMerge foldPrevious].
      rewrite cloneDeepObject_id.
      destruct (_customMerge (_state m) (data (new_Item c idx))); cbn; auto.
    + cbn. auto.
  - destruct (l_scope (new_Listener (new_Item c idx))).
    + rewrite triggerEach_emit. cbn. auto.
    + unfold bind, register.
      destruct (ListenerManager.register _ _); cbn. auto.
    + unfold bind, register.
      destruct (ListenerManager.register _ _) as [[|] r]; cbn;
        [rewrite triggerEach_emit|]; cbn; auto.
  - cbn. auto.
  - cbn. auto.
Qed.

(** ** The start-up scan, entry by entry *)














(** ** A listener of the past found at construction *)






(** ** [push], argument by argument *)



Lemma not_dispatched (c : value) :
  dispatched c = false ->
  mergedPayloads [c] = [] /\ quiet c.
Proof.
  unfold dispatched, mergedPayloads, retained. cbn [flat_map].
  destruct c; cbn; try (intros _; split; [reflexivity|exact I]).
  - discriminate.
  - destruct (type (new_Item (VObj kvs) None));
      try discriminate; intros _; split; try exact I; reflexivity.
Qed.









(** ** [addEventListener] and [removeEventListener] *)

(** X11: [_getBefore] by the index of the item.  Without an index it is the
    whole queue; with an index inside the queue it is the entries before
    that index; with an index at or beyond the end of the queue it is
    empty, not the whole queue.  Every entry comes back classified anew,
    without an index. *)
Theorem _getBefore_by_index (item : Item) (m : Manager) :
  _getBefore item m
  = map (fun itemConfig => new_Item itemConfig None)
        (match index item with
         | None => _dataLayer m
         | Some i =>
             if (i <? List.length (_dataLayer m))%nat
             then firstn i (_dataLayer m) else []
         end).
Proof.
  unfold _getBefore.
  destruct (_dataLayer m) as [|c q] eqn:Hq.
  - cbn [List.length Z.of_nat Z.eqb orb negb].
    destruct (index item) as [i|]; [|reflexivity].
    now destruct i.
  - replace (Z.of_nat (List.length (c :: q)) =? 0)%Z with false
      by (symmetry; apply Z.eqb_neq; cbn [List.length]; lia).
    cbn [orb]. destruct (index item) as [i|]; [|reflexivity].
    destruct (i <? List.length (c :: q))%nat eqn:Hi.
    + apply Nat.ltb_lt in Hi.
      replace (Z.of_nat i >? Z.of_nat (List.length (c :: q)) - 1)%Z with false
        by (symmetry; rewrite Z.gtb_ltb; apply Z.ltb_ge; lia).
      reflexivity.
    + apply Nat.ltb_ge in Hi.
      replace (Z.of_nat i >? Z.of_nat (List.length (c :: q)) - 1)%Z with true
        by (symmetry; rewrite Z.gtb_ltb; apply Z.ltb_lt; lia).
      reflexivity.
Qed.

Lemma listener_config_not_dispatched (k : string) (t l : value) (more : obj) :
  k = "on" \/ k = "off" ->
  has "event" more = false -> has "data" more = false ->
  dispatched (VObj ((k, t) :: ("handler", l) :: more)) = false.
Proof.
  intros Hk He Hd. unfold dispatched, new_Item, classify. cbn [type].
  assert (Hget : get "data" ((k, t) :: ("handler", l) :: more) = VUndef).
  { destruct Hk as [-> | ->]; cbn; clear He;
      induction more as [|[k' v'] more IH]; cbn in *; try reflexivity;
      apply orb_false_iff in Hd as [E Hd]; rewrite E; auto. }
  rewrite Hget.
  assert (Hev : has "event" ((k, t) :: ("handler", l) :: more) = false)
    by (destruct Hk as [-> | ->]; cbn; exact He).
  rewrite Hev. cbn [isPlainObject andb negb].
  repeat match goal with
         | |- context [if ?b then _ else _] => destruct b
         | |- context [match ?b with true => _ | false => _ end] => destruct b
         end; reflexivity.
Qed.

(** An item that [push] would not dispatch goes through [_processItem]
    without touching the state, its copy or the queue, and returns. *)
Lemma _processItem_not_dispatched (c : value) (idx : option nat) (m : Manager) :
  dispatched c = false ->
  exists m',
    _processItem (new_Item c idx) m = Normal tt m'
    /\ _state m' = _state m
    /\ _previousStateCopy m' = _previousStateCopy m
    /\ _dataLayer m' = _dataLayer m.
Proof.
  intros Hd. destruct (not_dispatched c Hd) as [Hnil Hq].
  pose proof (_processItem_stepState c idx m) as Hs.
  pose proof (_processItem_dataLayer (new_Item c idx) m) as Hf.
  rewrite Hnil in Hs.
  destruct (_processItem (new_Item c idx) m) as [[] m1|f m1|];
    cbv beta iota in Hs; cbn in Hf.
  - destruct Hs as [[Hs Hp] _]. cbn in Hs, Hp.
    inversion Hs. inversion Hp. exists m1. auto.
  - destruct Hs as (-> & Hf' & _). cbn in Hq. congruence.
  - discriminate.
Qed.

(** X12: [addEventListener] and [removeEventListener] always return,
    whatever they are given, and leave the state, the previous-state copy
    and the queue as they are: a listener is never appended to the queue
    and never merged. *)
Theorem listener_methods_leave_state_and_queue
        (type_ listener options : value) (m : Manager) :
  (exists m',
      addEventListener type_ listener options m = Normal tt m'
      /\ _state m' = _state m
      /\ _previousStateCopy m' = _previousStateCopy m
      /\ _dataLayer m' = _dataLayer m)
  /\ (exists m',
         removeEventListener type_ listener m = Normal tt m'
         /\ _state m' = _state m
         /\ _previousStateCopy m' = _previousStateCopy m
         /\ _dataLayer m' = _dataLayer m).
Proof.
  split.
  - unfold addEventListener. apply _processItem_not_dispatched.
    apply listener_config_not_dispatched; auto.
  - unfold removeEventListener. apply _processItem_not_dispatched.
    apply (listener_config_not_dispatched "off" type_ listener []); auto.
Qed.

(** X13: [addEventListener] with a type that is not a string or a listener
    that is not a function registers nothing and triggers nothing: the
    item it builds is invalid, and the only effect is the report of that
    item by [console.error]. *)
Theorem addEventListener_rejects_malformed
        (type_ listener options : value) (m : Manager) :
  isString type_ = false \/ isFunction listener = false ->
  exists cfg,
    addEventListener type_ listener options m
    = emit [ConsoleError (VObj cfg)] m
    /\ get "on" cfg = type_
    /\ get "handler" cfg = listener.
Proof.
  intros H. unfold addEventListener.
  match goal with |- context [new_Item (VObj ?c) None] => exists c end.
  split; [|split; reflexivity].
  unfold _processItem, new_Item, classify. cbn [valid type config].
  cbn [has get String.eqb Ascii.eqb Bool.eqb orb isPlainObject andb negb].
  destruct H as [H|H]; rewrite H; [|rewrite andb_false_r]; reflexivity.
Qed.

Lemma addEventListener_rejects_malformed_witness :
  (isString (VNum 5) = false \/ isFunction (VFun returning) = false)
  /\ exists cfg,
       addEventListener (VNum 5) (VFun returning) VUndef (fresh [sample_ab])
       = emit [ConsoleError (VObj cfg)] (fresh [sample_ab])
       /\ get "on" cfg = VNum 5
       /\ get "handler" cfg = VFun returning.
Proof.
  assert (H : isString (VNum 5) = false \/ isFunction (VFun returning) = false)
    by (left; reflexivity).
  split; [exact H|].
  exact (addEventListener_rejects_malformed
           (VNum 5) (VFun returning) VUndef (fresh [sample_ab]) H).
Defined.

Lemma _getBefore_unindexed (item : Item) (m : Manager) :
  index item = None ->
  _getBefore item m
  = map (fun itemConfig => new_Item itemConfig None) (_dataLayer m).
Proof.
  intros Hidx. unfold _getBefore. rewrite Hidx.
  destruct (_dataLayer m) as [|c q]; [reflexivity|].
  replace (Z.of_nat (List.length (c :: q)) =? 0)%Z with false
    by (symmetry; apply Z.eqb_neq; cbn [List.length]; lia).
  reflexivity.
Qed.

(** X14: a listener added through [addEventListener] with scope ["past"]
    is replayed the whole queue as it stands, entry by entry in order, and
    is not registered: the item it builds carries no index, and
    [_getBefore] then takes every entry. *)
Theorem addEventListener_past_replays_whole_queue
        (e : string) (h : fn) (o : obj) (m : Manager) :
  get "scope" o = VStr "past" ->
  addEventListener (VStr e) (VFun h) (VObj o) m
  = emit (replay {| l_event := e;
                    l_path := stringOf (get "path" o);
                    l_scope := PAST;
                    l_handler := Some h |}
                 (_dataLayer m)) m.
Proof.
  intros Hscope. unfold addEventListener. cbn [truthy].
  unfold _processItem.
  match goal with |- context [new_Item ?c None] => set (cfg := c) end.
  assert (Ht : type (new_Item cfg None) = LISTENER_ON) by reflexivity.
  assert (Hl : new_Listener (new_Item cfg None)
               = {| l_event := e;
                    l_path := stringOf (get "path" o);
                    l_scope := PAST;
                    l_handler := Some h |}).
  { unfold new_Listener, new_Item, cfg. cbn. now rewrite Hscope. }
  rewrite new_Item_valid, Ht. cbn [negb]. cbv iota.
  rewrite Hl. cbn [l_scope].
  rewrite triggerEach_emit, (_getBefore_unindexed (new_Item cfg None) m eq_refl),
    flat_map_map.
  reflexivity.
Qed.

Lemma addEventListener_past_replays_whole_queue_witness :
  get "scope" [("scope", VStr "past")] = VStr "past"
  /\ addEventListener (VStr "adobeDataLayer:change") (VFun returning)
                      (VObj [("scope", VStr "past")])
                      (fresh [sample_ab; sample_delete_b])
     = emit (replay {| l_event := "adobeDataLayer:change";
                       l_path := stringOf (get "path" [("scope", VStr "past")]);
                       l_scope := PAST;
                       l_handler := Some returning |}
                    (_dataLayer (fresh [sample_ab; sample_delete_b])))
            (fresh [sample_ab; sample_delete_b]).
Proof.
  split; [reflexivity|].
  exact (addEventListener_past_replays_whole_queue
           "adobeDataLayer:change" returning [("scope", VStr "past")]
           (fresh [sample_ab; sample_delete_b]) eq_refl).
Defined.

(** X15: a listener added through [addEventListener] without options has
    scope all: it is handed to [register], and it is replayed the whole
    queue as it stands exactly when [register] reports that it was
    registered; when [register] reports that it was not, nothing is
    triggered. *)
Theorem addEventListener_default_replays_when_registered
        (e : string) (h : fn) (m : Manager) :
  addEventListener (VStr e) (VFun h) VUndef m
  = let l := {| l_event := e; l_path := None; l_scope := ALL;
                l_handler := Some h |} in
    let (registered, registry) :=
      ListenerManager.register l (_listenerManager m) in
    Normal tt
      {| _dataLayer := _dataLayer m;
         _state := _state m;
         _previousStateCopy := _previousStateCopy m;
         _listenerManager := registry;
         observed :=
           (observed m
            ++ if registered then replay l (_dataLayer m) else [])%list |}.
Proof.
  unfold addEventListener. cbn [truthy]. unfold _processItem.
  match goal with |- context [new_Item ?c None] => set (cfg := c) end.
  assert (Ht : type (new_Item cfg None) = LISTENER_ON) by reflexivity.
  assert (Hl : new_Listener (new_Item cfg None)
               = {| l_event := e; l_path := None; l_scope := ALL;
                    l_handler := Some h |}) by reflexivity.
  rewrite new_Item_valid, Ht. cbn [negb]. cbv iota zeta.
  rewrite Hl. cbn [l_scope]. unfold bind, register.
  destruct (ListenerManager.register _ (_listenerManager m)) as [[|] r].
  - rewrite triggerEach_emit.
    match goal with |- context [_getBefore _ ?m1] =>
      rewrite (_getBefore_unindexed (new_Item cfg None) m1 eq_refl) end.
    rewrite flat_map_map.
    reflexivity.
  - cbn. destruct m; cbn. now rewrite app_nil_r.
Qed.

(** X16: a listener added through [addEventListener] with scope
    ["future"] is handed to [register] and nothing else happens: no entry
    of the queue is replayed and no handler is invoked. *)
Theorem addEventListener_future_triggers_nothing
        (e : string) (h : fn) (o : obj) (m : Manager) :
  get "scope" o = VStr "future" ->
  addEventListener (VStr e) (VFun h) (VObj o) m
  = Normal tt
      (set_listenerManager
         (snd (ListenerManager.register
                 {| l_event := e;
                    l_path := stringOf (get "path" o);
                    l_scope := FUTURE;
                    l_handler := Some h |}
                 (_listenerManager m)))
         m).
Proof.
  intros Hscope. unfold addEventListener. cbn [truthy].
  unfold _processItem.
  match goal with |- context [new_Item ?c None] => set (cfg := c) end.
  assert (Ht : type (new_Item cfg None) = LISTENER_ON) by reflexivity.
  assert (Hl : new_Listener (new_Item cfg None)
               = {| l_event := e;
                    l_path := stringOf (get "path" o);
                    l_scope := FUTURE;
                    l_handler := Some h |}).
  { unfold new_Listener, new_Item, cfg. cbn. now rewrite Hscope. }
  rewrite new_Item_valid, Ht. cbn [negb]. cbv iota.
  rewrite Hl. cbn [l_scope]. unfold bind, register.
  destruct (ListenerManager.register _ (_listenerManager m)) as [b r].
  reflexivity.
Qed.

Lemma addEventListener_future_triggers_nothing_witness :
  get "scope" [("scope", VStr "future")] = VStr "future"
  /\ addEventListener (VStr "adobeDataLayer:change") (VFun throwing)
                      (VObj [("scope", VStr "future")])
                      (fresh [sample_ab])
     = Normal tt
         {| _dataLayer := [sample_ab];
            _state := [];
            _previousStateCopy := [];
            _listenerManager :=
              [{| l_event := "adobeDataLayer:change"; l_path := None;
                  l_scope := FUTURE; l_handler := Some throwing |}];
            observed := [] |}.
Proof.
  split; [reflexivity|].
  exact (addEventListener_future_triggers_nothing
           "adobeDataLayer:change" throwing [("scope", VStr "future")]
           (fresh [sample_ab]) eq_refl).
Defined.

(** ** Looking up a key after a merge *)

Lemma map_cleaned_keys (o : obj) : map fst (map cleaned o) = map fst o.
Proof. rewrite map_map. apply map_ext. now intros [k v]. Qed.

Lemma has_map_cleaned (k : string) (o : obj) : has k (map cleaned o) = has k o.
Proof.
  induction o as [|[k' v] o IH]; cbn; [reflexivity|]. now rewrite IH.
Qed.

Lemma get_absent (k : string) (o : obj) : has k o = false -> get k o = VUndef.
Proof.
  induction o as [|[k' v] o IH]; cbn; [reflexivity|].
  intros H. apply orb_false_iff in H as [E H]. rewrite E. auto.
Qed.

Lemma has_set_other (k k' : string) (v : value) (o : obj) :
  (k =? k') = false -> has k (set k' v o) = has k o.
Proof.
  intros E. induction o as [|[k0 v0] o IH]; cbn.
  - now rewrite E.
  - destruct (k' =? k0) eqn:E0; cbn; [|now rewrite IH].
    apply String.eqb_eq in E0. subst k0. reflexivity.
Qed.

Lemma mergeProps_has_other (k : string) (source object merged : obj) :
  has k source = false ->
  lodash.mergeProps customizer (lodash.baseMergeDeep customizer) object source
  = Some merged ->
  has k merged = has k object.
Proof.
  revert object. induction source as [|[k' s] source IH]; intros object Hk Hm;
    cbn in Hm, Hk.
  - now inversion Hm.
  - apply orb_false_iff in Hk as [E Hk].
    destruct (lodash.mergeProp customizer (lodash.baseMergeDeep customizer)
                (get k' object) s) as [nv|]; [|discriminate].
    rewrite (IH _ Hk Hm). unfold lodash.assignMergeValue.
    destruct nv; try (now apply has_set_other).
    destruct (has k' object); [reflexivity|now apply has_set_other].
Qed.

(** After a merge: a key of the source holds the cleaned merge of the two
    values, every other key the cleaned value it had. *)
Lemma _customMerge_lookup (object src r : obj) (k : string) :
  NoDup (map fst object) ->
  NoDup (map fst src) ->
  _customMerge object (VObj src) = Some r ->
  NoDup (map fst r)
  /\ (has k src = true ->
      exists newValue,
        lodash.mergeProp customizer (lodash.baseMergeDeep customizer)
          (get k object) (get k src) = Some newValue
        /\ get k r = cleanedValue newValue
        /\ has k r = true)
  /\ (has k src = false ->
      get k r = cleanedValue (get k object) /\ has k r = has k object).
Proof.
  intros Hnd Hsrc H.
  destruct (_customMerge_cleaned _ _ _ Hnd H) as (merged & Hm & ->).
  pose proof (mergeWith_NoDup _ _ _ Hnd Hm) as Hndm.
  unfold lodash.mergeWith in Hm.
  split; [now rewrite map_cleaned_keys|]. split; intros Hk.
  - pose proof (mergeProps_get k src object merged Hsrc Hk Hm) as Hkey.
    exists (get k merged). split; [exact Hkey|].
    split; [apply get_map_cleaned|].
    rewrite has_map_cleaned. apply get_has.
    exact (mergeProp_defined _ _ _ Hkey).
  - rewrite get_map_cleaned, has_map_cleaned.
    rewrite (mergeProps_get_other k src object merged Hk Hm).
    split; [reflexivity|].
    exact (mergeProps_has_other k src object merged Hk Hm).
Qed.

(** X17: a source value that is neither an object nor [null] nor
    [undefined] overwrites whatever the state held under its key, be it a
    scalar, an array or an object: after the merge the state holds the
    source value there. *)
Theorem merge_scalar_overwrites (object src r : obj) (k : string) :
  NoDup (map fst object) ->
  NoDup (map fst src) ->
  has k src = true ->
  lodash.isObject (get k src) = false ->
  isNil (get k src) = false ->
  _customMerge object (VObj src) = Some r ->
  get k r = get k src.
Proof.
  intros Hnd Hsrc Hk Hobj Hnil H.
  destruct (_customMerge_lookup object src r k Hnd Hsrc H) as (_ & Hin & _).
  destruct (Hin Hk) as (nv & Hnv & Hget & _).
  rewrite mergeProp_scalar in Hnv by assumption. rewrite Hnil in Hnv.
  inversion Hnv; subst nv. rewrite Hget. unfold cleanedValue.
  destruct (get k src); try reflexivity; discriminate.
Qed.

Lemma merge_scalar_overwrites_witness :
  NoDup (map fst [("a", VObj [("b", VNum 1)]); ("z", VNum 0)])
  /\ NoDup (map fst [("a", VStr "x")])
  /\ has "a" [("a", VStr "x")] = true
  /\ lodash.isObject (get "a" [("a", VStr "x")]) = false
  /\ isNil (get "a" [("a", VStr "x")]) = false
  /\ _customMerge [("a", VObj [("b", VNum 1)]); ("z", VNum 0)]
                  (VObj [("a", VStr "x")])
     = Some [("a", VStr "x"); ("z", VNum 0)]
  /\ get "a" [("a", VStr "x"); ("z", VNum 0)] = get "a" [("a", VStr "x")].
Proof.
  assert (H1 : NoDup (map fst [("a", VObj [("b", VNum 1)]); ("z", VNum 0)])).
  { repeat constructor; cbn; intuition discriminate. }
  assert (H2 : NoDup (map fst [("a", VStr "x")])).
  { repeat constructor; cbn; intuition discriminate. }
  split; [exact H1|]. split; [exact H2|].
  split; [reflexivity|]. split; [reflexivity|]. split; [reflexivity|].
  split; [reflexivity|].
  exact (merge_scalar_overwrites
           [("a", VObj [("b", VNum 1)]); ("z", VNum 0)] [("a", VStr "x")]
           [("a", VStr "x"); ("z", VNum 0)] "a"
           H1 H2 eq_refl eq_refl eq_refl eq_refl).
Defined.

(** X18: a [null] or [undefined] supplied under a top-level key of the
    source does not remove the key: whatever the state held there, after
    the merge the key is still an own property of the state, with value
    [null]. *)
Theorem merge_top_level_null_keeps_key (object src r : obj) (k : string) :
  NoDup (map fst object) ->
  NoDup (map fst src) ->
  has k src = true ->
  isNil (get k src) = true ->
  _customMerge object (VObj src) = Some r ->
  get k r = VNull /\ has k r = true.
Proof.
  intros Hnd Hsrc Hk Hnil H.
  destruct (_customMerge_lookup object src r k Hnd Hsrc H) as (_ & Hin & _).
  destruct (Hin Hk) as (nv & Hnv & Hget & Hhas).
  assert (Hobj : lodash.isObject (get k src) = false)
    by (destruct (get k src); try reflexivity; discriminate).
  rewrite mergeProp_scalar in Hnv by assumption. rewrite Hnil in Hnv.
  inversion Hnv; subst nv. auto.
Qed.

Lemma merge_top_level_null_keeps_key_witness :
  NoDup (map fst [("a", VObj [("b", VNum 1)]); ("z", VNum 0)])
  /\ NoDup (map fst [("a", VUndef)])
  /\ has "a" [("a", VUndef)] = true
  /\ isNil (get "a" [("a", VUndef)]) = true
  /\ _customMerge [("a", VObj [("b", VNum 1)]); ("z", VNum 0)]
                  (VObj [("a", VUndef)])
     = Some [("a", VNull); ("z", VNum 0)]
  /\ get "a" [("a", VNull); ("z", VNum 0)] = VNull
  /\ has "a" [("a", VNull); ("z", VNum 0)] = true.
Proof.
  assert (H1 : NoDup (map fst [("a", VObj [("b", VNum 1)]); ("z", VNum 0)])).
  { repeat constructor; cbn; intuition discriminate. }
  assert (H2 : NoDup (map fst [("a", VUndef)])).
  { repeat constructor; cbn; intuition discriminate. }
  split; [exact H1|]. split; [exact H2|].
  split; [reflexivity|]. split; [reflexivity|]. split; [reflexivity|].
  exact (merge_top_level_null_keeps_key
           [("a", VObj [("b", VNum 1)]); ("z", VNum 0)] [("a", VUndef)]
           [("a", VNull); ("z", VNum 0)] "a" H1 H2 eq_refl eq_refl eq_refl).
Defined.



(** ** States made by merges *)

Lemma omitting_not_null (v : value) :
  lodash.isNull v = false ->
  lodash.isNull (omittingCloneDeepCustomizer lodash.isNull v) = false.
Proof. now destruct v. Qed.

(** Cleaning a clean value changes nothing. *)
Lemma omitting_idempotent (v : value) :
  omittingCloneDeepCustomizer lodash.isNull
    (omittingCloneDeepCustomizer lodash.isNull v)
  = omittingCloneDeepCustomizer lodash.isNull v.
Proof.
  induction v using value_nested_ind; cbn; try reflexivity.
  - f_equal. induction H as [|x xs Hx _ IH]; cbn; [reflexivity|].
    destruct (lodash.isNull x) eqn:Hn; [exact IH|].
    cbn. rewrite (omitting_not_null x Hn), Hx, IH. reflexivity.
  - f_equal. induction H as [|[k x] kvs Hx _ IH]; cbn; [reflexivity|].
    destruct (lodash.isNull x) eqn:Hn; [exact IH|].
    cbn in *. rewrite (omitting_not_null x Hn), Hx, IH. reflexivity.
Qed.

Lemma cleanedValue_idempotent (v : value) :
  cleanedValue (cleanedValue v) = cleanedValue v.
Proof.
  unfold cleanedValue. destruct (lodash.isNull v) eqn:Hn.
  - now rewrite Hn.
  - now rewrite (omitting_not_null v Hn), omitting_idempotent.
Qed.

Lemma cleaned_idempotent (o : obj) : map cleaned (map cleaned o) = map cleaned o.
Proof.
  rewrite map_map. apply map_ext. intros [k v]. unfold cleaned. cbn [fst snd].
  f_equal. exact (cleanedValue_idempotent v).
Qed.

Lemma _customMerge_falsy (object : obj) (r : obj) :
  NoDup (map fst object) ->
  _customMerge object (VObj []) = Some r ->
  r = map cleaned object.
Proof.
  intros Hnd H. destruct (_customMerge_cleaned _ _ _ Hnd H) as (merged & Hm & ->).
  cbn in Hm. now inversion Hm.
Qed.

(** X20: the state a merge produces is a fixed point of the empty merge:
    merging [{}] into it gives it back unchanged, key for key and value
    for value.  (On a state that did not come out of a merge the empty
    merge is not the identity: it cleans the nested nulls.) *)
Theorem merge_of_nothing_changes_nothing
        (object : obj) (source : value) (state : obj) :
  NoDup (map fst object) ->
  _customMerge object source = Some state ->
  _customMerge state (VObj []) = Some state.
Proof.
  intros Hnd H.
  destruct (_customMerge_cleaned _ _ _ Hnd H) as (merged & Hm & ->).
  pose proof (mergeWith_NoDup _ _ _ Hnd Hm) as Hndm.
  unfold _customMerge. cbn [lodash.mergeWith lodash.mergeProps].
  cbn [omitDeep omittingCloneDeepCustomizer].
  rewrite assign_omit by (now rewrite map_cleaned_keys).
  now rewrite cleaned_idempotent.
Qed.

Lemma merge_of_nothing_changes_nothing_witness :
  NoDup (map fst [("a", VObj [("b", VNum 1); ("c", VNum 2)])])
  /\ _customMerge [("a", VObj [("b", VNum 1); ("c", VNum 2)])]
                  (VObj [("a", VObj [("b", VNull)]); ("n", VNull)])
     = Some [("a", VObj [("c", VNum 2)]); ("n", VNull)]
  /\ _customMerge [("a", VObj [("c", VNum 2)]); ("n", VNull)] (VObj [])
     = Some [("a", VObj [("c", VNum 2)]); ("n", VNull)].
Proof.
  assert (H1 : NoDup (map fst [("a", VObj [("b", VNum 1); ("c", VNum 2)])])).
  { repeat constructor; cbn; intuition discriminate. }
  split; [exact H1|]. split; [reflexivity|].
  exact (merge_of_nothing_changes_nothing
           [("a", VObj [("b", VNum 1); ("c", VNum 2)])]
           (VObj [("a", VObj [("b", VNull)]); ("n", VNull)])
           [("a", VObj [("c", VNum 2)]); ("n", VNull)] H1 eq_refl).
Defined.

(** X21: a merge touches only the keys its source names.  On a state that
    came out of a merge, every key absent from the source holds after the
    next merge exactly the value it held before, and is present exactly
    when it was. *)
Theorem merge_leaves_other_keys
        (object : obj) (source : value) (state src r : obj) (k : string) :
  NoDup (map fst object) ->
  NoDup (map fst src) ->
  _customMerge object source = Some state ->
  has k src = false ->
  _customMerge state (VObj src) = Some r ->
  get k r = get k state /\ has k r = has k state.
Proof.
  intros Hnd Hsrc H0 Hk H.
  destruct (_customMerge_cleaned _ _ _ Hnd H0) as (merged & Hm & ->).
  pose proof (mergeWith_NoDup _ _ _ Hnd Hm) as Hndm.
  assert (Hnds : NoDup (map fst (map cleaned merged)))
    by (now rewrite map_cleaned_keys).
  destruct (_customMerge_lookup _ src r k Hnds Hsrc H) as (_ & _ & Hout).
  destruct (Hout Hk) as [Hget Hhas]. split; [|exact Hhas].
  rewrite Hget, get_map_cleaned.
  exact (cleanedValue_idempotent (get k merged)).
Qed.

Lemma merge_leaves_other_keys_witness :
  NoDup (map fst ([] : obj))
  /\ NoDup (map fst [("z", VNum 0)])
  /\ _customMerge [] (VObj [("a", VArr [VNum 1; VNull; VNum 2])])
     = Some [("a", VArr [VNum 1; VNum 2])]
  /\ has "a" [("z", VNum 0)] = false
  /\ _customMerge [("a", VArr [VNum 1; VNum 2])] (VObj [("z", VNum 0)])
     = Some [("a", VArr [VNum 1; VNum 2]); ("z", VNum 0)]
  /\ get "a" [("a", VArr [VNum 1; VNum 2]); ("z", VNum 0)]
     = get "a" [("a", VArr [VNum 1; VNum 2])]
  /\ has "a" [("a", VArr [VNum 1; VNum 2]); ("z", VNum 0)]
     = has "a" [("a", VArr [VNum 1; VNum 2])].
Proof.
  assert (H1 : NoDup (map fst ([] : obj))) by constructor.
  assert (H2 : NoDup (map fst [("z", VNum 0)])).
  { repeat constructor; cbn; intuition discriminate. }
  split; [exact H1|]. split; [exact H2|].
  split; [reflexivity|]. split; [reflexivity|]. split; [reflexivity|].
  exact (merge_leaves_other_keys
           [] (VObj [("a", VArr [VNum 1; VNull; VNum 2])])
           [("a", VArr [VNum 1; VNum 2])] [("z", VNum 0)]
           [("a", VArr [VNum 1; VNum 2]); ("z", VNum 0)] "a"
           H1 H2 eq_refl eq_refl eq_refl).
Defined.

Lemma has_omitProps (j : string) (c : value -> value) (o : obj) :
  has j (lodash.omitProps lodash.isNull c o) = true -> has j o = true.
Proof.
  induction o as [|[k v] o IH]; cbn; [discriminate|].
  destruct (lodash.isNull v); cbn; intros H.
  - rewrite (IH H). apply orb_true_r.
  - apply orb_true_iff in H as [H|H]; [now rewrite H|].
    rewrite (IH H). apply orb_true_r.
Qed.

(** The properties of the clone made by [omitDeep]: those that are not
    [null], each cloned. *)
Lemma get_omitProps (j : string) (c : value -> value) (o : obj) :
  NoDup (map fst o) ->
  get j (lodash.omitProps lodash.isNull c o)
  = (if lodash.isNull (get j o) then VUndef
     else if has j o then c (get j o) else VUndef)
  /\ has j (lodash.omitProps lodash.isNull c o)
     = has j o && negb (lodash.isNull (get j o)).
Proof.
  induction o as [|[k v] o IH]; intros Hnd; cbn; [auto|].
  inversion Hnd as [|? ? Hfresh Hnd']; subst.
  destruct (IH Hnd') as [IHg IHh].
  destruct (j =? k) eqn:E.
  - apply String.eqb_eq in E. subst k. cbn [orb].
    assert (Hout : has j o = false).
    { destruct (has j o) eqn:Hh; [|reflexivity].
      apply has_In in Hh. contradiction. }
    destruct (lodash.isNull v) eqn:Hv; cbn.
    + rewrite Hout in IHh. cbn in IHh. rewrite IHh. split; [|reflexivity].
      apply get_absent. exact IHh.
    + rewrite String.eqb_refl. auto.
  - cbn [orb]. destruct (lodash.isNull v); cbn; [auto|]. rewrite E. auto.
Qed.

(** X22: one level down, deletion works.  When the state and the source
    both hold an object under a key and the source's object has [null] or
    [undefined] under a nested key, then after the merge the state's object
    no longer has that nested key, and the nested keys the source does not
    name hold what they held (a nested [null] apart, which is dropped). *)
Theorem merge_deletes_nested_key
        (object src tsub ssub r : obj) (k j : string) :
  NoDup (map fst object) ->
  NoDup (map fst src) ->
  NoDup (map fst tsub) ->
  NoDup (map fst ssub) ->
  get k object = VObj tsub ->
  get k src = VObj ssub ->
  has j ssub = true ->
  isNil (get j ssub) = true ->
  _customMerge object (VObj src) = Some r ->
  exists rsub,
    get k r = VObj rsub
    /\ has j rsub = false
    /\ forall j',
         has j' ssub = false -> has j' tsub = true ->
         lodash.isNull (get j' tsub) = false ->
         get j' rsub = omittingCloneDeepCustomizer lodash.isNull (get j' tsub).
Proof.
  intros Hnd Hsrc Hnt Hns Hgo Hgs Hj Hnil H.
  destruct (_customMerge_lookup object src r k Hnd Hsrc H) as (_ & Hin & _).
  assert (Hk : has k src = true) by (apply get_has; rewrite Hgs; discriminate).
  destruct (Hin Hk) as (nv & Hnv & Hget & _).
  rewrite Hgo, Hgs in Hnv. unfold lodash.mergeProp in Hnv.
  cbn [lodash.isObject lodash.baseMergeDeep customizer isNil] in Hnv.
  destruct (lodash.mergeProps customizer (lodash.baseMergeDeep customizer)
              tsub ssub) as [msub|] eqn:Hmsub;
    cbn [option_map] in Hnv; [|discriminate].
  inversion Hnv; subst nv; clear Hnv.
  pose proof (mergeProps_NoDup _ _ _ _ _ Hnt Hmsub) as Hndm.
  exists (lodash.omitProps lodash.isNull
            (omittingCloneDeepCustomizer lodash.isNull) msub).
  split; [exact Hget|].
  destruct (get_omitProps j (omittingCloneDeepCustomizer lodash.isNull) msub Hndm)
    as [_ Hhas].
  pose proof (mergeProps_get j ssub tsub msub Hns Hj Hmsub) as Hjm.
  assert (Hobj : lodash.isObject (get j ssub) = false)
    by (destruct (get j ssub); try reflexivity; discriminate).
  rewrite mergeProp_scalar in Hjm by assumption. rewrite Hnil in Hjm.
  inversion Hjm as [Hjnull]. split.
  - rewrite Hhas, <- Hjnull. cbn. apply andb_false_r.
  - intros j' Hout Hin' Hnn.
    destruct (get_omitProps j' (omittingCloneDeepCustomizer lodash.isNull) msub Hndm)
      as [Hg _].
    pose proof (mergeProps_get_other j' ssub tsub msub Hout Hmsub) as Hsame.
    rewrite Hg, Hsame, Hnn.
    assert (Hhm : has j' msub = true)
      by (now rewrite (mergeProps_has_other j' ssub tsub msub Hout Hmsub)).
    now rewrite Hhm.
Qed.

Lemma merge_deletes_nested_key_witness :
  NoDup (map fst [("a", VObj [("b", VNum 1); ("c", VNum 2)])])
  /\ NoDup (map fst [("a", VObj [("b", VNull)])])
  /\ NoDup (map fst [("b", VNum 1); ("c", VNum 2)])
  /\ NoDup (map fst [("b", VNull)])
  /\ get "a" [("a", VObj [("b", VNum 1); ("c", VNum 2)])]
     = VObj [("b", VNum 1); ("c", VNum 2)]
  /\ get "a" [("a", VObj [("b", VNull)])] = VObj [("b", VNull)]
  /\ has "b" [("b", VNull)] = true
  /\ isNil (get "b" [("b", VNull)]) = true
  /\ _customMerge [("a", VObj [("b", VNum 1); ("c", VNum 2)])]
                  (VObj [("a", VObj [("b", VNull)])])
     = Some [("a", VObj [("c", VNum 2)])]
  /\ exists rsub,
       get "a" [("a", VObj [("c", VNum 2)])] = VObj rsub
       /\ has "b" rsub = false.
Proof.
  assert (H1 : NoDup (map fst [("a", VObj [("b", VNum 1); ("c", VNum 2)])])).
  { repeat constructor; cbn; intuition discriminate. }
  assert (H2 : NoDup (map fst [("a", VObj [("b", VNull)])])).
  { repeat constructor; cbn; intuition discriminate. }
  assert (H3 : NoDup (map fst [("b", VNum 1); ("c", VNum 2)])).
  { repeat constructor; cbn; intuition discriminate. }
  assert (H4 : NoDup (map fst [("b", VNull)])).
  { repeat constructor; cbn; intuition discriminate. }
  repeat (split; [first [assumption|reflexivity]|]).
  destruct (merge_deletes_nested_key
              [("a", VObj [("b", VNum 1); ("c", VNum 2)])]
              [("a", VObj [("b", VNull)])]
              [("b", VNum 1); ("c", VNum 2)] [("b", VNull)]
              [("a", VObj [("c", VNum 2)])] "a" "b"
              H1 H2 H3 H4 eq_refl eq_refl eq_refl eq_refl eq_refl)
    as (rsub & Hget & Hhas & _).
  exists rsub. split; [exact Hget|exact Hhas].
Defined.

(** ** What a state holds *)

(** X23: after a merge, every own property of the state is either a [null]
    left at the top level or a value that holds no [null] at any depth:
    below the top level, objects have lost their [null] properties and
    arrays their [null] elements. *)
Theorem merge_result_has_no_nested_null
        (object : obj) (source : value) (r : obj) (k : string) :
  NoDup (map fst object) ->
  _customMerge object source = Some r ->
  get k r = VNull \/ nullFree (get k r) = true.
Proof. exact (_customMerge_nullFree_below object source r k). Qed.

Lemma merge_result_has_no_nested_null_witness :
  NoDup (map fst [("a", VNum 1)])
  /\ _customMerge [("a", VNum 1)]
                  (VObj [("a", VNull);
                         ("b", VObj [("x", VNull); ("y", VArr [VNull; VNum 3])])])
     = Some [("a", VNull); ("b", VObj [("y", VArr [VNum 3])])]
  /\ (get "b" [("a", VNull); ("b", VObj [("y", VArr [VNum 3])])] = VNull
      \/ nullFree (get "b" [("a", VNull); ("b", VObj [("y", VArr [VNum 3])])])
         = true).
Proof.
  assert (H1 : NoDup (map fst [("a", VNum 1)])).
  { repeat constructor; cbn; intuition discriminate. }
  split; [exact H1|]. split; [reflexivity|].
  exact (merge_result_has_no_nested_null
           [("a", VNum 1)]
           (VObj [("a", VNull);
                  ("b", VObj [("x", VNull); ("y", VArr [VNull; VNum 3])])])
           [("a", VNull); ("b", VObj [("y", VArr [VNum 3])])] "b" H1 eq_refl).
Defined.

Lemma omitting_functionFree (v : value) :
  functionFree (omittingCloneDeepCustomizer lodash.isNull v) = true.
Proof.
  induction v using value_nested_ind; cbn; try reflexivity.
  - induction H as [|x xs Hx _ IH]; cbn; [reflexivity|].
    destruct (lodash.isNull x); [exact IH|]. cbn. now rewrite Hx, IH.
  - induction H as [|[k x] kvs Hx _ IH]; cbn; [reflexivity|].
    destruct (lodash.isNull x); [exact IH|]. cbn in *. now rewrite Hx, IH.
Qed.

(** X24: after a merge the state holds no function at any depth, whatever
    the state and the payload held before: every function, at the top
    level or nested in objects and arrays, has been replaced by an empty
    object by the clone that [omitDeep] makes. *)
Theorem merge_result_holds_no_function
        (object : obj) (source : value) (r : obj) (k : string) :
  NoDup (map fst object) ->
  _customMerge object source = Some r ->
  functionFree (get k r) = true.
Proof.
  intros Hnd H.
  destruct (_customMerge_cleaned _ _ _ Hnd H) as (merged & _ & ->).
  rewrite get_map_cleaned.
  destruct (lodash.isNull (get k merged)) eqn:Hn.
  - now destruct (get k merged).
  - apply omitting_functionFree.
Qed.

Lemma merge_result_holds_no_function_witness :
  NoDup (map fst [("old", VFun throwing)])
  /\ _customMerge [("old", VFun throwing)]
                  (VObj [("a", VArr [VFun returning; VNum 1])])
     = Some [("old", VObj []); ("a", VArr [VObj []; VNum 1])]
  /\ functionFree (get "a" [("old", VObj []); ("a", VArr [VObj []; VNum 1])])
     = true.
Proof.
  assert (H1 : NoDup (map fst [("old", VFun throwing)])).
  { repeat constructor; cbn; intuition discriminate. }
  split; [exact H1|]. split; [reflexivity|].
  exact (merge_result_holds_no_function
           [("old", VFun throwing)]
           (VObj [("a", VArr [VFun returning; VNum 1])])
           [("old", VObj []); ("a", VArr [VObj []; VNum 1])] "a" H1 eq_refl).
Defined.



(** X26: a listener of scope past never enters the registry.  A manager
    whose registry holds none keeps it so through [push],
    [addEventListener] and [removeEventListener], however they end, and
    construction ends with such a registry. *)
Theorem registry_never_holds_past_listener
        (args : list value) (type_ listener options dataLayer : value)
        (m : Manager) :
  noPast (_listenerManager m) ->
  leaves (push args m) (fun m' => noPast (_listenerManager m'))
  /\ leaves (addEventListener type_ listener options m)
            (fun m' => noPast (_listenerManager m'))
  /\ leaves (removeEventListener type_ listener m)
            (fun m' => noPast (_listenerManager m'))
  /\ leaves (_initialize dataLayer) (fun m' => noPast (_listenerManager m')).
Proof.
  intros Hinv. repeat split.
  - pose proof (push_forEach_frame args m) as H. unfold push, bind.
    destruct (push_forEach args m) as [fl m1|f m1|]; cbn in *; trivial.
    + destruct H as [_ Hr].
      destruct (truthy (argument (hd None fl))); cbn; now rewrite Hr.
    + destruct H as [_ Hr]. now rewrite Hr.
  - unfold addEventListener. now apply _processItem_noPast.
  - unfold removeEventListener. now apply _processItem_noPast.
  - apply _initialize_noPast.
Qed.

Lemma registry_never_holds_past_listener_witness :
  noPast (_listenerManager (fresh [sample_ab]))
  /\ leaves (addEventListener (VStr "adobeDataLayer:change") (VFun returning)
                              (VObj [("scope", VStr "past")])
                              (fresh [sample_ab]))
            (fun m' => noPast (_listenerManager m')).
Proof.
  assert (H : noPast (_listenerManager (fresh [sample_ab]))) by constructor.
  split; [exact H|].
  exact (proj1 (proj2 (registry_never_holds_past_listener
                         [] (VStr "adobeDataLayer:change") (VFun returning)
                         (VObj [("scope", VStr "past")]) VUndef
                         (fresh [sample_ab]) H))).
Defined.
